(** * Stevenson (WA) city meetings scraper: a verified model

    A shallow embedding of [city_scrapers/mixins/colgo_stevenson_city.py]
    (class [ColgoStevensonCitySpiderMixin]) and the properties its
    specification states about it.

    Conventions of the embedding:
    - a Python [str] is a list of characters; a character is a code point in
      0..255 (the type [ascii] read as Latin-1), on which Python's
      [str.isspace], the [re] classes and [str.lower] are written out;
    - [None] is [option]'s [None]; a Python exception is the [Raised] case of
      [outcome];
    - the DOM a response carries is a tree of elements and text nodes, and the
      six CSS selectors the spider uses are evaluated over it in document
      order;
    - what the spider takes from its framework (URL joining, the generic status
      rule, the id rule, the clock) is a variable of the section that uses it. *)

From Stdlib Require Import String Ascii List NArith ZArith Lia Bool Arith.
From Stdlib Require Import DecimalString.
Import ListNotations.

Open Scope string_scope.
Open Scope list_scope.

(** ** Strings *)

Abbreviation str := (list ascii).

Definition lit (s : string) : list ascii := list_ascii_of_string s.
#[warning="-uniform-inheritance"] Coercion lit : string >-> list.

Definition code (c : ascii) : N := N_of_ascii c.

Definition between (lo hi n : N) : bool := (lo <=? n)%N && (n <=? hi)%N.

(** [str.isspace] on one character: TAB..CR, FS..US, space, NEL and NBSP
    are the whitespace code points below 256. *)
Definition isspace (c : ascii) : bool :=
  between 9 13 (code c) || between 28 32 (code c)
  || (code c =? 133)%N || (code c =? 160)%N.

(** The [re] class [\d] over [str]: the decimal digits below 256. *)
Definition isdecimal (c : ascii) : bool := between 48 57 (code c).

(** The [re] class [[A-Za-z]]. *)
Definition isletter (c : ascii) : bool :=
  between 65 90 (code c) || between 97 122 (code c).

(** [str.lower] on one character: A..Z and the Latin-1 capitals (all of
    0xC0..0xDE but the multiplication sign) move up by 32. *)
Definition lower_char (c : ascii) : ascii :=
  if between 65 90 (code c)
     || (between 192 222 (code c) && negb (code c =? 215)%N)
  then ascii_of_N (code c + 32) else c.

Definition lower (s : str) : str := map lower_char s.

Definition ascii_eqb (a b : ascii) : bool := Ascii.eqb a b.

Fixpoint str_eqb (a b : str) : bool :=
  match a, b with
  | [], [] => true
  | x :: a', y :: b' => ascii_eqb x y && str_eqb a' b'
  | _, _ => false
  end.

(** [s.startswith(p)] and the remainder after the prefix. *)
Fixpoint strip_prefix (p s : str) : option str :=
  match p, s with
  | [], _ => Some s
  | x :: p', y :: s' => if ascii_eqb x y then strip_prefix p' s' else None
  | _ :: _, [] => None
  end.

Definition startswith (p s : str) : bool :=
  match strip_prefix p s with Some _ => true | None => false end.

(** [sub in s]. *)
Fixpoint contains (sub s : str) : bool :=
  startswith sub s
  || match s with
     | [] => false
     | _ :: s' => contains sub s'
     end.

(** [s.replace(old, new)] for a one-character [old]. *)
Definition replace_char (old : ascii) (new : str) (s : str) : str :=
  flat_map (fun c => if ascii_eqb c old then new else [c]) s.

Fixpoint lstrip (s : str) : str :=
  match s with
  | c :: s' => if isspace c then lstrip s' else s
  | [] => []
  end.

Definition rstrip (s : str) : str := rev (lstrip (rev s)).

(** [s.strip()]. *)
Definition strip (s : str) : str := rstrip (lstrip s).

(** Python truthiness of a [str]. *)
Definition truthy (s : str) : bool :=
  match s with [] => false | _ :: _ => true end.

(** [t] occurs in [s] as a run of consecutive characters. *)
Definition substring_of (t s : str) : Prop :=
  exists pre post, s = pre ++ t ++ post.

Definition suffix_of (t s : str) : Prop := exists pre, s = pre ++ t.

(** ** Regular expressions

    The fragment of [re] the title patterns are written in: literal
    characters, the classes [\s], [\d] and [[A-Za-z]], concatenation,
    alternation, and greedy repetition of one character class.  The matcher
    is the backtracking one of [re]: alternatives are tried left to right,
    a greedy repetition takes as many characters as it can and gives them
    back one at a time, and the first way through is the match. *)

Inductive cclass : Type :=
| CChar (c : ascii)
| CLetter
| CDigit
| CSpace.

Definition in_class (k : cclass) (c : ascii) : bool :=
  match k with
  | CChar x => ascii_eqb x c
  | CLetter => isletter c
  | CDigit => isdecimal c
  | CSpace => isspace c
  end.

Inductive regex : Type :=
| Eps
| One (k : cclass)
| Seq (r1 r2 : regex)
| Alt (r1 r2 : regex)
| Rep (k : cclass) (lo : nat) (hi : option nat).

(** How many leading characters of [s] are in class [k], at most [hi]. *)
Fixpoint run_length (k : cclass) (hi : option nat) (s : str) : nat :=
  match hi, s with
  | Some 0, _ => 0
  | _, [] => 0
  | _, c :: s' =>
      if in_class k c
      then S (run_length k (option_map pred hi) s')
      else 0
  end.

(** Try the continuation after [n], [n-1], ..., [lo] characters. *)
Fixpoint give_back (cont : str -> option str) (s : str) (lo n : nat)
  : option str :=
  if (n <? lo)%nat then None
  else match cont (skipn n s) with
       | Some rest => Some rest
       | None => match n with
                 | 0 => None
                 | S n' => give_back cont s lo n'
                 end
       end.

(** [rmatch r cont s]: match [r] at the head of [s], then [cont] on what is
    left; the result is what the whole match leaves unread. *)
Fixpoint rmatch (r : regex) (cont : str -> option str) (s : str)
  : option str :=
  match r with
  | Eps => cont s
  | One k =>
      match s with
      | c :: s' => if in_class k c then cont s' else None
      | [] => None
      end
  | Seq r1 r2 => rmatch r1 (rmatch r2 cont) s
  | Alt r1 r2 =>
      match rmatch r1 cont s with
      | Some rest => Some rest
      | None => rmatch r2 cont s
      end
  | Rep k lo hi => give_back cont s lo (run_length k hi s)
  end.

(** [re.match("^" r, s)]: what follows the match, if there is one. *)
Definition re_match (r : regex) (s : str) : option str := rmatch r Some s.

(** [re.sub("^" r, "", s)].  Without MULTILINE the anchor holds at offset 0
    only, so at most the one match at the head of [s] is replaced. *)
Definition re_sub (r : regex) (s : str) : str :=
  match re_match r s with
  | Some rest => rest
  | None => s
  end.

Fixpoint word (s : str) : regex :=
  match s with
  | [] => Eps
  | c :: s' => Seq (One (CChar c)) (word s')
  end.

Fixpoint seqs (rs : list regex) : regex :=
  match rs with
  | [] => Eps
  | r :: rs' => Seq r (seqs rs')
  end.

Fixpoint alts (r : regex) (rs : list regex) : regex :=
  match rs with
  | [] => r
  | r' :: rs' => Alt r (alts r' rs')
  end.

Definition plus (k : cclass) : regex := Rep k 1 None.
Definition star (k : cclass) : regex := Rep k 0 None.
Definition opt (k : cclass) : regex := Rep k 0 (Some 1).
Definition times (k : cclass) (lo hi : nat) : regex := Rep k lo (Some hi).

(** ** The title cleaner *)

(** (?:Monday|Tuesday|Wednesday|Thursday|Friday|Saturday|Sunday) *)
Definition weekday : regex :=
  alts (word "Monday")
       [word "Tuesday"; word "Wednesday"; word "Thursday"; word "Friday";
        word "Saturday"; word "Sunday"].

(** (?:st|nd|rd|th) *)
Definition ordinal : regex :=
  alts (word "st") [word "nd"; word "rd"; word "th"].

(** [A-Za-z]+\s+ *)
Definition month_name : list regex := [plus CLetter; plus CSpace].

Definition dash : cclass := CChar "-"%char.
Definition comma : cclass := CChar ","%char.
Definition amp : cclass := CChar "&"%char.

(** The eight patterns of [date_patterns], in the order of the source. *)
Definition date_patterns : list regex :=
  [ (* 1: ^(?:Monday|...|Sunday),?\s+[A-Za-z]+\s+\d{1,2}\s*-\s* *)
    seqs ([weekday; opt comma; plus CSpace] ++ month_name
          ++ [times CDigit 1 2; star CSpace; One dash; star CSpace]);
    (* 2: ^[A-Za-z]+\s+\d{1,2}\s*&\s*\d{1,2}\s+ *)
    seqs (month_name ++ [times CDigit 1 2; star CSpace; One amp; star CSpace;
                    times CDigit 1 2; plus CSpace]);
    (* 3: ^[A-Za-z]+\s+\d{1,2}\s*-\s*\d{1,2},?\s+\d{4}\s+ *)
    seqs (month_name ++ [times CDigit 1 2; star CSpace; One dash; star CSpace;
                    times CDigit 1 2; opt comma; plus CSpace;
                    times CDigit 4 4; plus CSpace]);
    (* 4: ^[A-Za-z]+\s+\d{1,2}(?:st|nd|rd|th)\s+ *)
    seqs (month_name ++ [times CDigit 1 2; ordinal; plus CSpace]);
    (* 5: ^[A-Za-z]+\s+\d{1,2}(?:st|nd|rd|th),?\s+\d{4}\s+ *)
    seqs (month_name ++ [times CDigit 1 2; ordinal; opt comma; plus CSpace;
                    times CDigit 4 4; plus CSpace]);
    (* 6: ^[A-Za-z]+\s+\d{1,2},\s+\d{4}\s*-?\s* *)
    seqs (month_name ++ [times CDigit 1 2; One comma; plus CSpace;
                    times CDigit 4 4; star CSpace; opt dash; star CSpace]);
    (* 7: ^[A-Za-z]+\s+\d{1,2}\s*-\s* *)
    seqs (month_name ++ [times CDigit 1 2; star CSpace; One dash; star CSpace]);
    (* 8: ^[A-Za-z]+\s+\d{4}\s+ *)
    seqs (month_name ++ [times CDigit 4 4; plus CSpace]) ].

(** The loop [for pattern in date_patterns: title = re.sub(pattern, "", title)]. *)
Definition strip_dates (title : str) : str :=
  fold_left (fun t p => re_sub p t) date_patterns title.

(** [_parse_title] from the text its selector returned ([None] when no text
    node matched) to the cleaned title. *)
Definition clean_title (raw : option str) : str :=
  let title :=
    match raw with
    | Some t => if truthy t then strip t else []
    | None => []
    end in
  strip (strip_dates title).

(** ** Exceptions *)

Inductive exn : Type := ValueError | TypeError | AttributeError | KeyError.

Inductive outcome (A : Type) : Type :=
| Returned (a : A)
| Raised (e : exn).
Arguments Returned {A} a.
Arguments Raised {A} e.

Definition bind {A B : Type} (m : outcome A) (f : A -> outcome B) : outcome B :=
  match m with
  | Returned a => f a
  | Raised e => Raised e
  end.

Notation "x <- m ;; k" := (bind m (fun x => k))
  (at level 61, m at next level, right associativity).

(** [try: body  except ValueError: return handler]. *)
Definition except_ValueError {A : Type} (body : outcome A) (handler : A)
  : outcome A :=
  match body with
  | Raised ValueError => Returned handler
  | other => other
  end.

(** ** Datetimes *)

Record datetime : Type := mk_datetime {
  year : N; month : N; day : N;
  hour : N; minute : N; second : N; microsecond : N
}.

(** A fixed offset from UTC, as [datetime.timezone] holds it. *)
Record utcoffset : Type := mk_offset {
  off_negative : bool; off_hours : N; off_minutes : N
}.

(** A datetime as [fromisoformat] returns it: the fields as written and the
    [tzinfo] read from the offset, if the string had one. *)
Record aware_datetime : Type := mk_aware {
  fields : datetime; tzinfo : option utcoffset
}.

(** [dt.replace(tzinfo=None)]: the fields stay, the offset goes. *)
Definition replace_tzinfo_none (dt : aware_datetime) : datetime := fields dt.

Definition is_leap (y : N) : bool :=
  ((y mod 4 =? 0) && (negb (y mod 100 =? 0) || (y mod 400 =? 0)))%N.

Definition days_in_month (y m : N) : N :=
  (if m =? 2 then (if is_leap y then 29 else 28)
   else if (m =? 4) || (m =? 6) || (m =? 9) || (m =? 11) then 30
   else 31)%N.

(** The ranges the [datetime] constructor checks. *)
Definition valid_datetime (d : datetime) : bool :=
  (between 1 9999 (year d) && between 1 12 (month d)
   && between 1 (days_in_month (year d) (month d)) (day d)
   && (hour d <? 24) && (minute d <? 60) && (second d <? 60)
   && (microsecond d <? 1000000))%N.

(** [timezone] takes offsets strictly between -24h and +24h. *)
Definition valid_offset (o : utcoffset) : bool :=
  ((off_hours o <? 24) && (off_minutes o <? 60))%N.

(** Naive datetimes compare field by field, the year first. *)
Definition dt_key (d : datetime) : list N :=
  [year d; month d; day d; hour d; minute d; second d; microsecond d].

Fixpoint lex_ltb (a b : list N) : bool :=
  match a, b with
  | x :: a', y :: b' => (x <? y)%N || ((x =? y)%N && lex_ltb a' b')
  | _, _ => false
  end.

(** [a < b] on naive datetimes. *)
Definition dt_ltb (a b : datetime) : bool := lex_ltb (dt_key a) (dt_key b).

Definition digit_val (c : ascii) : option N :=
  if isdecimal c then Some (code c - 48)%N else None.

(** Read exactly [w] decimal digits. *)
Fixpoint read_digits (w : nat) (acc : N) (s : str) : option (N * str) :=
  match w with
  | 0 => Some (acc, s)
  | S w' =>
      match s with
      | c :: s' =>
          match digit_val c with
          | Some v => read_digits w' (acc * 10 + v) s'
          | None => None
          end
      | [] => None
      end
  end.

Definition expect (c : ascii) (s : str) : option str :=
  match s with
  | x :: s' => if ascii_eqb x c then Some s' else None
  | [] => None
  end.

Definition obind {A B : Type} (m : option A) (f : A -> option B) : option B :=
  match m with Some a => f a | None => None end.

Notation "' p <~ m ;; k" := (obind m (fun p => k))
  (at level 61, p pattern, m at next level, right associativity).

(** YYYY-MM-DD *)
Definition read_date (s : str) : option (N * N * N * str) :=
  '(y, s) <~ read_digits 4 0 s ;;
  's <~ expect "-" s ;;
  '(m, s) <~ read_digits 2 0 s ;;
  's <~ expect "-" s ;;
  '(d, s) <~ read_digits 2 0 s ;;
  Some (y, m, d, s).

(** .fff or .ffffff, or nothing *)
Definition read_fraction (s : str) : option (N * str) :=
  match s with
  | "."%char :: s' =>
      match read_digits 6 0 s' with
      | Some r => Some r
      | None => '(ms, s) <~ read_digits 3 0 s' ;; Some (ms * 1000, s)%N
      end
  | _ => Some (0%N, s)
  end.

(** HH[:MM[:SS[.fff[fff]]]] *)
Definition read_time (s : str) : option (N * N * N * N * str) :=
  '(h, s) <~ read_digits 2 0 s ;;
  match s with
  | ":"%char :: s =>
      '(mi, s) <~ read_digits 2 0 s ;;
      match s with
      | ":"%char :: s =>
          '(sec, s) <~ read_digits 2 0 s ;;
          '(us, s) <~ read_fraction s ;;
          Some (h, mi, sec, us, s)
      | _ => Some (h, mi, 0, 0, s)%N
      end
  | _ => Some (h, 0, 0, 0, s)%N
  end.

(** Nothing, or a sign and HH:MM up to the end of the string. *)
Definition read_offset (s : str) : option (option utcoffset) :=
  match s with
  | [] => Some None
  | c :: s' =>
      if ascii_eqb c "+" || ascii_eqb c "-" then
        '(h, s) <~ read_digits 2 0 s' ;;
        's <~ expect ":" s ;;
        '(m, s) <~ read_digits 2 0 s ;;
        match s with
        | [] =>
            let o := mk_offset (ascii_eqb c "-") h m in
            if valid_offset o then Some (Some o) else None
        | _ :: _ => None
        end
      else None
  end.

Definition parse_isoformat (s : str) : option aware_datetime :=
  '(y, m, d, s) <~ read_date s ;;
  match s with
  | [] =>
      let dt := mk_datetime y m d 0 0 0 0 in
      if valid_datetime dt then Some (mk_aware dt None) else None
  | _ :: s =>
      '(h, mi, sec, us, s) <~ read_time s ;;
      'tz <~ read_offset s ;;
      let dt := mk_datetime y m d h mi sec us in
      if valid_datetime dt then Some (mk_aware dt tz) else None
  end.

(** [datetime.fromisoformat] of the standard library, on the format
    [datetime.isoformat] writes and every CPython since 3.7 reads:
    YYYY-MM-DD, one separator character, HH[:MM[:SS[.fff[fff]]]] and an
    optional offset +HH:MM or -HH:MM.  A string it cannot read, or one whose
    fields are out of range, is a [ValueError]. *)
Definition fromisoformat (s : str) : outcome aware_datetime :=
  match parse_isoformat s with
  | Some dt => Returned dt
  | None => Raised ValueError
  end.

(** [_parse_datetime]. *)
Definition _parse_datetime (date_str : str) : outcome (option datetime) :=
  except_ValueError
    (let date_str := strip date_str in
     if contains "T" date_str then
       dt <- fromisoformat (replace_char "Z" "+00:00" date_str) ;;
       Returned (Some (replace_tzinfo_none dt))
     else Returned None)
    None.

(** ** The document and its selectors *)

#[warnings="-register-all"]
Inductive node : Type :=
| Element (tag : str) (attrs : list (str * str)) (children : list node)
| Text (data : str).

(** The node and everything below it in document order, each with its
    ancestors inside the walk, the parent first. *)
Fixpoint walk (up : list node) (n : node) : list (list node * node) :=
  (up, n) ::
  match n with
  | Element _ _ cs => flat_map (fun c => walk (n :: up) c) cs
  | Text _ => []
  end.

Fixpoint lookup (name : str) (attrs : list (str * str)) : option str :=
  match attrs with
  | [] => None
  | (k, v) :: rest => if str_eqb k name then Some v else lookup name rest
  end.

Definition attr (name : str) (n : node) : option str :=
  match n with
  | Element _ a _ => lookup name a
  | Text _ => None
  end.

(** Space, TAB, LF and CR separate the tokens of a [class] attribute. *)
Definition is_separator (c : ascii) : bool :=
  (code c =? 32)%N || (code c =? 9)%N || (code c =? 10)%N || (code c =? 13)%N.

Fixpoint tokens_from (cur : str) (s : str) : list str :=
  match s with
  | [] => match cur with [] => [] | _ => [rev cur] end
  | c :: s' =>
      if is_separator c
      then match cur with
           | [] => tokens_from [] s'
           | _ => rev cur :: tokens_from [] s'
           end
      else tokens_from (c :: cur) s'
  end.

Definition tokens (s : str) : list str := tokens_from [] s.

(** The simple selectors the spider writes: [E], [.c] and [[a='v']]. *)
Inductive simple : Type :=
| Tag (t : str)
| Class (c : str)
| AttrIs (name value : str).

Definition matches_simple (n : node) (s : simple) : bool :=
  match n with
  | Text _ => false
  | Element t a _ =>
      match s with
      | Tag x => str_eqb x t
      | Class c =>
          match lookup "class" a with
          | Some v => existsb (str_eqb c) (tokens v)
          | None => false
          end
      | AttrIs name value =>
          match lookup name a with
          | Some v => str_eqb value v
          | None => false
          end
      end
  end.

(** [E.c] is [[Tag E; Class c]]; [Inside a e] is the descendant
    combinator [a e]. *)
Inductive selector : Type :=
| Just (e : list simple)
| Inside (a e : list simple).

Definition matches (up : list node) (n : node) (s : selector) : bool :=
  match s with
  | Just e => forallb (matches_simple n) e
  | Inside a e =>
      forallb (matches_simple n) e
      && existsb (fun anc => forallb (matches_simple anc) a) up
  end.

(** [ctx.css("s1, s2")]: the elements at or below [ctx] that match one of
    the selectors, in document order. *)
Definition css (group : list selector) (ctx : node) : list node :=
  map snd (filter (fun '(up, n) => existsb (matches up n) group) (walk [] ctx)).

(** [ctx.css("s1::attr(name), s2::attr(name)").getall()]. *)
Definition css_attr (group : list selector) (name : str) (ctx : node)
  : list str :=
  flat_map (fun n => match attr name n with Some v => [v] | None => [] end)
           (css group ctx).

(** [ctx.css("s1::text, s2::text").getall()]: the text nodes whose parent
    matches, in document order. *)
Definition css_text (group : list selector) (ctx : node) : list str :=
  flat_map (fun '(up, n) =>
              match n, up with
              | Text d, parent :: up' =>
                  if existsb (matches up' parent) group then [d] else []
              | _, _ => []
              end)
           (walk [] ctx).

(** [.get()]: the first result or [None]. *)
Definition get {A : Type} (results : list A) : option A := hd_error results.

Record response : Type := mk_response { url : str; root : node }.

(** ** The records *)

Inductive classification_t : Type := CITY_COUNCIL | COMMISSION | NOT_CLASSIFIED.

(** Modelled from the spec: the status constants of
    [city_scrapers_core.constants], of which the mixin imports [CANCELLED]
    and [PASSED]. *)
Inductive status_t : Type := CANCELLED | PASSED | TENTATIVE | UPCOMING.

Module Link.
Record t : Type := mk { href : str; title : str }.
End Link.

Record location_t : Type := mk_location { loc_name : str; address : str }.

Record meeting : Type := mk_meeting {
  title : str;
  description : str;
  classification : classification_t;
  start : option datetime;
  end_ : option datetime;
  all_day : bool;
  time_notes : str;
  location : option location_t;
  links : list Link.t;
  source : str;
  status : option status_t;
  id : option str
}.

Definition set_status (m : meeting) (s : status_t) : meeting :=
  mk_meeting (title m) (description m) (classification m) (start m) (end_ m)
             (all_day m) (time_notes m) (location m) (links m) (source m)
             (Some s) (id m).

Definition set_id (m : meeting) (i : str) : meeting :=
  mk_meeting (title m) (description m) (classification m) (start m) (end_ m)
             (all_day m) (time_notes m) (location m) (links m) (source m)
             (status m) (Some i).

(** The class attributes a spider built on the mixin carries. *)
Record spider : Type := mk_spider {
  name : str;
  agency : str;
  board_name : option str;
  spider_description : str;
  spider_location : option location_t;
  board_id : Z
}.

(** What [parse] yields. *)
Inductive item : Type :=
| YieldMeeting (m : meeting)
| YieldRequest (target : str).

(** One run of the generator [parse] to its end: the warnings logged, the
    items yielded in order, and the exception that ended it, if one did. *)
Record run : Type := mk_run {
  logged : list str;
  yielded : list item;
  raised : option exn
}.

Definition meetings_of (r : run) : list meeting :=
  flat_map (fun i => match i with YieldMeeting m => [m] | _ => [] end)
           (yielded r).

Definition requests_of (r : run) : list str :=
  flat_map (fun i => match i with YieldRequest u => [u] | _ => [] end)
           (yielded r).

(** [_parse_classification]. *)
Definition _parse_classification (self : spider) : classification_t :=
  if (board_id self =? 27)%Z then CITY_COUNCIL
  else if (board_id self =? 28)%Z then COMMISSION
  else NOT_CLASSIFIED.

(** "td.views-field-title::text, .views-field-title::text" *)
Definition title_selector : list selector :=
  [Just [Tag "td"; Class "views-field-title"]; Just [Class "views-field-title"]].

(** [_parse_title]. *)
Definition _parse_title (row : node) : str :=
  clean_title (get (css_text title_selector row)).

(** "span[property='dc:date']::attr(content)" *)
Definition date_selector : list selector :=
  [Just [Tag "span"; AttrIs "property" "dc:date"]].

(** [_parse_start]. *)
Definition _parse_start (row : node) : outcome (option datetime) :=
  match get (css_attr date_selector "content" row) with
  | Some date_elem =>
      if truthy date_elem then _parse_datetime (strip date_elem)
      else Returned None
  | None => Returned None
  end.

(** "tr.even, tr.odd" *)
Definition row_selector : list selector :=
  [Just [Tag "tr"; Class "even"]; Just [Tag "tr"; Class "odd"]].

(** ".pager-next a::attr(href), .pager__item--next a::attr(href)" *)
Definition next_selector : list selector :=
  [Inside [Class "pager-next"] [Tag "a"];
   Inside [Class "pager__item--next"] [Tag "a"]].

Definition headers : list str :=
  ["Agenda" : str; "Agenda Packet" : str; "Minutes" : str; "Video" : str].

(** [zip(xs, ys)]. *)
Definition zip {A B : Type} (xs : list A) (ys : list B) : list (A * B) :=
  combine xs ys.

Section Spider.

(** [response.urljoin]: the framework's resolution of a reference against
    the page it was found on; it raises on a reference it cannot read. *)
Variable urljoin : response -> str -> outcome str.

(** [CityScrapersSpider._get_status], the generic rule the mixin falls back
    on; it is given the clock reading of the call. *)
Variable core_get_status : datetime -> meeting -> str -> outcome status_t.

(** [CityScrapersSpider._get_id]. *)
Variable _get_id : meeting -> outcome str.

(** [datetime.now()] while the row at a given position is processed. *)
Variable clock : nat -> datetime.

Variable self : spider.

(** The loop of [_parse_links] over the paired headers and cells. *)
Fixpoint collect_links (resp : response) (pairs : list (str * node))
  : outcome (list Link.t) :=
  match pairs with
  | [] => Returned []
  | (header, cell) :: rest =>
      match get (css_attr [Just [Tag "a"]] "href" cell) with
      | Some href =>
          if truthy href then
            target <- urljoin resp href ;;
            links <- collect_links resp rest ;;
            Returned (Link.mk target header :: links)
          else collect_links resp rest
      | None => collect_links resp rest
      end
  end.

(** [_parse_links]. *)
Definition _parse_links (row : node) (resp : response)
  : outcome (list Link.t) :=
  let cells := css [Just [Tag "td"]] row in
  collect_links resp (zip headers (skipn 2 cells)).

(** [_get_status]. *)
Definition _get_status (now : datetime) (m : meeting) (text : str)
  : outcome status_t :=
  let combined_text := lower (title m ++ " " ++ text) in
  if contains "cancelled" combined_text then Returned CANCELLED
  else if contains "rescheduled" combined_text
          && match start m with
             | Some s => dt_ltb s now
             | None => false
             end
  then Returned PASSED
  else core_get_status now m text.

(** [_parse_source]. *)
Definition _parse_source (resp : response) : str := url resp.

(** The body of the loop in [parse] for the row at position [i]. *)
Definition parse_row (resp : response) (i : nat) (row : node)
  : outcome meeting :=
  let title_ := _parse_title row in
  start_ <- _parse_start row ;;
  links_ <- _parse_links row resp ;;
  let m := mk_meeting title_ (spider_description self)
                      (_parse_classification self) start_ None false []
                      (spider_location self) links_
                      (_parse_source resp) None None in
  st <- _get_status (clock i) m [] ;;
  let m := set_status m st in
  ident <- _get_id m ;;
  Returned (set_id m ident).

(** The loop [for item in meetings]: what it yields, and the exception
    that left it before the end, if one did. *)
Fixpoint parse_rows (resp : response) (i : nat) (rows : list node)
  : list item * option exn :=
  match rows with
  | [] => ([], None)
  | row :: rest =>
      match parse_row resp i row with
      | Returned m =>
          let '(ys, e) := parse_rows resp (S i) rest in
          (YieldMeeting m :: ys, e)
      | Raised e => ([], Some e)
      end
  end.

(** The pagination tail of [parse]. *)
Definition next_page (resp : response) : option str :=
  get (css_attr next_selector "href" (root resp)).

Definition paginate (resp : response) : outcome (list item) :=
  match next_page resp with
  | Some h =>
      if truthy h then
        target <- urljoin resp h ;;
        Returned [YieldRequest target]
      else Returned []
  | None => Returned []
  end.

(** The end of [parse], after the warning or the loop. *)
Definition finish (resp : response) (log : list str) (ys : list item) : run :=
  match paginate resp with
  | Returned tail => mk_run log (ys ++ tail) None
  | Raised e => mk_run log ys (Some e)
  end.

(** [parse]. *)
Definition parse (resp : response) : run :=
  let meetings := css row_selector (root resp) in
  match meetings with
  | [] => finish resp ["No meetings found at " ++ url resp] []
  | _ :: _ =>
      match parse_rows resp 0 meetings with
      | (ys, Some e) => mk_run [] ys (Some e)
      | (ys, None) => finish resp [] ys
      end
  end.

End Spider.

(** * Notions the properties are stated with *)

(** ** Trimmed strings and matched prefixes *)

Definition clean_head (s : str) : bool :=
  match s with
  | [] => true
  | c :: _ => negb (isspace c)
  end.

(** No whitespace at either end. *)
Definition trimmed (s : str) : Prop :=
  clean_head s = true /\ clean_head (rev s) = true.

Fixpoint min_len (r : regex) : nat :=
  match r with
  | Eps => 0
  | One _ => 1
  | Seq r1 r2 => min_len r1 + min_len r2
  | Alt r1 r2 => Nat.min (min_len r1) (min_len r2)
  | Rep _ lo _ => lo
  end.

(** [rest] is what is left of [s] after a prefix of at least [n] characters. *)
Definition leaves (n : nat) (s rest : str) : Prop :=
  exists pre, s = pre ++ rest /\ n <= length pre.

(** The text [_parse_title] starts from: [title.strip() if title else ""]. *)
Definition first_trim (raw : option str) : str :=
  match raw with
  | Some t => if truthy t then strip t else []
  | None => []
  end.

(** ** ISO 8601 datetimes as the site writes them *)

Fixpoint pow10 (w : nat) : N :=
  match w with
  | 0 => 1
  | S w' => 10 * pow10 w'
  end.

Definition digit (v : N) : ascii := ascii_of_N (48 + v mod 10).

(** [v] in [w] decimal digits, zero padded. *)
Fixpoint digits (w : nat) (v : N) : str :=
  match w with
  | 0 => []
  | S w' => digit (v / pow10 w') :: digits w' (v mod pow10 w')
  end.

(** The zone designator of an ISO 8601 datetime: "Z" or a numeric offset. *)
Inductive zone : Type :=
| Zulu
| Offset (o : utcoffset).

Definition valid_zone (z : zone) : bool :=
  match z with
  | Zulu => true
  | Offset o => valid_offset o
  end.

Definition write_offset (o : utcoffset) : str :=
  (if off_negative o then "-"%char else "+"%char)
    :: digits 2 (off_hours o) ++ ":"%char :: digits 2 (off_minutes o).

Definition write_zone (z : zone) : str :=
  match z with
  | Zulu => ["Z"%char]
  | Offset o => write_offset o
  end.

Definition write_fraction (us : N) : str :=
  if (us =? 0)%N then [] else "."%char :: digits 6 us.

(** YYYY-MM-DDTHH:MM:SS[.ffffff] followed by the zone designator: the
    well-formed ISO 8601 datetimes with an offset. *)
Definition isoformat (d : datetime) (z : zone) : str :=
  digits 4 (year d) ++ "-"%char :: digits 2 (month d) ++ "-"%char
    :: digits 2 (day d) ++ "T"%char :: digits 2 (hour d) ++ ":"%char
    :: digits 2 (minute d) ++ ":"%char :: digits 2 (second d)
    ++ write_fraction (microsecond d) ++ write_zone z.

(** What [.replace("Z", "+00:00")] turns the designator into. *)
Definition numeric (z : zone) : utcoffset :=
  match z with
  | Zulu => mk_offset false 0 0
  | Offset o => o
  end.

(** The characters an ISO 8601 datetime is written in, "Z" apart. *)
Definition iso_char (c : ascii) : Prop :=
  isspace c = false /\ ascii_eqb c "Z" = false.

(** ** Case-insensitive search *)

(** [w] occurs in [s] when case is ignored: some run of consecutive
    characters of [s] lowers to [w]. *)
Definition mentions (w s : str) : Prop :=
  exists pre mid post, s = pre ++ mid ++ post /\ lower mid = w.

(** The text [_get_status] searches: title, a space, the notes. *)
Definition combined (m : meeting) (text : str) : str :=
  title m ++ " " ++ text.

(** ** Rows, cells and links by position *)

(** "td" and "a::attr(href)" *)
Definition cells_of (row : node) : list node := css [Just [Tag "td"]] row.

Definition first_href (cell : node) : option str :=
  get (css_attr [Just [Tag "a"]] "href" cell).

(** The reference of the data column at position [i], counted from the
    third cell, under the [i]-th header: present when that cell exists and
    its first anchor reference is not empty. *)
Definition ref_at (row : node) (i : nat) : list (str * str) :=
  match nth_error headers i, nth_error (cells_of row) (2 + i) with
  | Some header, Some cell =>
      match first_href cell with
      | Some h => if truthy h then [(header, h)] else []
      | None => []
      end
  | _, _ => []
  end.

(** What one step of the loop of [_parse_links] finds in a paired cell. *)
Definition ref_of (pair : str * node) : list (str * str) :=
  let '(header, cell) := pair in
  match first_href cell with
  | Some h => if truthy h then [(header, h)] else []
  | None => []
  end.

(** The link [l] is the labelled reference [(header, h)] resolved: it has
    the header for title and the resolution of the non-empty reference [h]
    for href. *)
Definition resolves (urljoin : response -> str -> outcome str)
           (resp : response) (labelled : str * str) (l : Link.t) : Prop :=
  Link.title l = fst labelled
  /\ snd labelled <> []
  /\ urljoin resp (snd labelled) = Returned (Link.href l).

(** The labelled references of a row as the specification words them: the
    four labelled positions in order. *)
Definition refs_by_position (row : node) : list (str * str) :=
  flat_map (ref_at row) [0; 1; 2; 3].

Definition is_row (n : node) : bool :=
  matches_simple n (Tag "tr")
  && (matches_simple n (Class "even") || matches_simple n (Class "odd")).

(** The rows of a page paired with their positions, as the loop meets them. *)
Definition numbered {A : Type} (from : nat) (l : list A) : list (nat * A) :=
  combine (seq from (length l)) l.

(** ** A sample page *)

Definition el (tag : string) (attrs : list (string * string))
           (children : list node) : node :=
  Element tag (map (fun '(k, v) => (lit k, lit v)) attrs) children.

Definition sample_row_1 : node :=
  el "tr" [("class", "odd views-row-first")]
     [ el "td" [("class", "views-field views-field-field-calendar-date")]
          [ el "span" [("property", "dc:date");
                       ("content", "2024-12-19T18:00:00-08:00")]
               [Text "Thursday, December 19, 2024 - 6:00pm"] ];
       el "td" [("class", "views-field views-field-title")]
          [Text "  December 19- City Council Meeting "];
       el "td" [] [el "a" [("href", "/agenda.pdf")] [Text "Agenda"]];
       el "td" [] [Text " "];
       el "td" [] [el "a" [("href", "/minutes.pdf")] [Text "Minutes"]] ].

Definition sample_row_2 : node :=
  el "tr" [("class", "even")]
     [ el "td" [("class", "views-field views-field-field-calendar-date")] [];
       el "td" [("class", "views-field views-field-title")]
          [Text "Meeting Cancelled"] ].

(** Two reserved cells and three data cells, each with an anchor. *)
Definition sample_row_3 : node :=
  el "tr" [("class", "odd")]
     [ el "td" [] [Text "01/15/2026"];
       el "td" [("class", "views-field-title")] [Text "Planning Commission"];
       el "td" [] [el "a" [("href", "/a.pdf")] []];
       el "td" [] [el "a" [("href", "/p.pdf")] []];
       el "td" [] [el "a" [("href", "/m.pdf")] []] ].

Definition sample_pager : node :=
  el "ul" [("class", "pager")]
     [ el "li" [("class", "pager-next")]
          [el "a" [("href", "/meetings?page=1")] [Text "next"]] ].

Definition sample_page : response :=
  mk_response
    "https://www.ci.stevenson.wa.us/meetings?field_microsite_tid_1=27"
    (el "html" []
        [ el "body" []
             [ el "table" [] [el "tbody" [] [sample_row_1; sample_row_2]];
               sample_pager ] ]).

Definition empty_page : response :=
  mk_response "https://www.ci.stevenson.wa.us/meetings?page=9"
              (el "html" [] [el "body" [] [sample_pager]]).

(** Stand-ins for the framework, to run the model on the sample page. *)
Definition sample_urljoin (resp : response) (ref : str) : outcome str :=
  Returned ("https://www.ci.stevenson.wa.us" ++ ref).

Definition sample_status (now : datetime) (m : meeting) (text : str)
  : outcome status_t :=
  Returned match start m with
           | Some s => if dt_ltb s now then PASSED else TENTATIVE
           | None => TENTATIVE
           end.

Definition sample_id (m : meeting) : outcome str := Returned (title m).

(** A status rule that cannot answer for a record without a start. *)
Definition strict_status (now : datetime) (m : meeting) (text : str)
  : outcome status_t :=
  match start m with
  | Some s => Returned (if dt_ltb s now then PASSED else TENTATIVE)
  | None => Raised TypeError
  end.

(** A resolution that rejects a reference with an opening bracket and no
    closing one. *)
Definition picky_urljoin (resp : response) (ref : str) : outcome str :=
  if contains "[" ref && negb (contains "]" ref) then Raised ValueError
  else Returned ("https://www.ci.stevenson.wa.us" ++ ref).

Definition sample_clock (i : nat) : datetime := mk_datetime 2024 12 18 0 0 0 0.

Definition sample_spider : spider :=
  mk_spider "colgo_stevenson_city" "City of Stevenson" (Some (lit "City Council"))
            "City Council meetings"
            (Some (mk_location "Stevenson City Hall Council Chambers"
                               "7121 East Loop Road, Stevenson, WA 98648"))
            27.

Definition sample_run : run :=
  parse sample_urljoin sample_status sample_id sample_clock sample_spider
        sample_page.

(** ** Padding, digits and letters *)

(** Whitespace only. *)
Definition blank (s : str) : Prop := Forall (fun c => isspace c = true) s.

Definition digit_free (s : str) : Prop :=
  Forall (fun c => isdecimal c = false) s.

Definition starts_with_letter (s : str) : bool :=
  match s with
  | c :: _ => isletter c
  | [] => false
  end.

(** The class holds decimal digits only. *)
Definition digit_class (k : cclass) : bool :=
  match k with
  | CDigit => true
  | CChar c => isdecimal c
  | _ => false
  end.

(** Every match of the expression reads a decimal digit. *)
Fixpoint needs_digit (r : regex) : bool :=
  match r with
  | Eps => false
  | One k => digit_class k
  | Seq r1 r2 => needs_digit r1 || needs_digit r2
  | Alt r1 r2 => needs_digit r1 && needs_digit r2
  | Rep k lo _ => digit_class k && (1 <=? lo)%nat
  end.

(** The class holds ASCII letters only. *)
Definition letter_class (k : cclass) : bool :=
  match k with
  | CLetter => true
  | CChar c => isletter c
  | _ => false
  end.

(** Every match of the expression starts by reading an ASCII letter. *)
Fixpoint opens_with_letter (r : regex) : bool :=
  match r with
  | Eps => false
  | One k => letter_class k
  | Seq r1 _ => opens_with_letter r1
  | Alt r1 r2 => opens_with_letter r1 && opens_with_letter r2
  | Rep k lo _ => letter_class k && (1 <=? lo)%nat
  end.

(** The elements of [l] at the positions the mask keeps, in order. *)
Fixpoint pick {A : Type} (mask : list bool) (l : list A) : list A :=
  match mask, l with
  | keep :: mask', x :: l' =>
      if keep then x :: pick mask' l' else pick mask' l'
  | _, _ => []
  end.

(** What every record the loop of [parse] builds looks like. *)
Definition well_formed_record (self : spider) (resp : response) (m : meeting)
  : Prop :=
  description m = spider_description self
  /\ classification m = _parse_classification self
  /\ end_ m = None
  /\ all_day m = false
  /\ time_notes m = []
  /\ location m = spider_location self
  /\ source m = url resp
  /\ status m <> None
  /\ id m <> None.

(** ** The metaclass *)

(** [sep.join(parts)]. *)
Fixpoint join (sep : str) (parts : list str) : str :=
  match parts with
  | [] => []
  | p :: rest =>
      match rest with
      | [] => p
      | _ :: _ => p ++ sep ++ join sep rest
      end
  end.

Module ColgoStevensonCitySpiderMixinMeta.

Definition required_static_vars : list str :=
  ["agency" : str; "name" : str; "board_name" : str; "location" : str;
   "description" : str].

(** The outcome of creating a class: the class, or the exception raised
    with its message. *)
Inductive created : Type :=
| Created
| NotImplementedError (message : str).

(** [var in dct], [dct] being the namespace of the class body. *)
Definition defines {V : Type} (dct : list (str * V)) (var : str) : bool :=
  existsb (fun entry => str_eqb (fst entry) var) dct.

(** [__init__(cls, name, bases, dct)]; [type.__init__] does nothing more. *)
Definition __init__ {V : Type} (name : str) (dct : list (str * V)) : created :=
  if negb (str_eqb name "ColgoStevensonCitySpiderMixin") then
    let missing_vars :=
      filter (fun var => negb (defines dct var)) required_static_vars in
    match missing_vars with
    | _ :: _ =>
        let missing_vars_str := join ", " missing_vars in
        NotImplementedError
          (name ++ " must define the following static variable(s): "
                ++ missing_vars_str ++ ".")
    | [] => Created
    end
  else Created.

End ColgoStevensonCitySpiderMixinMeta.

(** ** The first request *)

(** [str(n)] for an [int]. *)
Definition str_of_int (z : Z) : str :=
  lit (NilEmpty.string_of_int (Z.to_int z)).

(** The characters [urllib.parse.quote] never escapes. *)
Definition always_safe (c : ascii) : bool :=
  isletter c || isdecimal c
  || ascii_eqb c "_" || ascii_eqb c "." || ascii_eqb c "-" || ascii_eqb c "~".

Definition hex (v : N) : ascii :=
  nth (N.to_nat v) (lit "0123456789ABCDEF") "0"%char.

(** %XX for one byte. *)
Definition percent (byte : N) : str :=
  ["%"%char; hex (byte / 16); hex (byte mod 16)].

(** The UTF-8 bytes of a code point below 256. *)
Definition utf8 (c : ascii) : list N :=
  if (code c <? 128)%N then [code c]
  else [192 + code c / 64; 128 + code c mod 64]%N.

(** [urllib.parse.quote_plus(s)]. *)
Definition quote_plus (s : str) : str :=
  flat_map (fun c =>
              if always_safe c then [c]
              else if ascii_eqb c " " then ["+"%char]
              else flat_map percent (utf8 c))
           s.

(** A value of the query: an [int] or a [str]. *)
Inductive param : Type :=
| PInt (z : Z)
| PStr (s : str).

Definition str_of_param (v : param) : str :=
  match v with
  | PInt z => str_of_int z
  | PStr s => s
  end.

(** [urllib.parse.urlencode(params)] for a dict of such values, in the
    order of insertion. *)
Definition urlencode (params : list (str * param)) : str :=
  join "&" (map (fun '(k, v) => quote_plus k ++ "=" ++ quote_plus (str_of_param v))
                params).

(** The day after, at the same time of day; there is none after
    9999-12-31. *)
Definition next_day (d : datetime) : option datetime :=
  let at_day y m dd :=
    mk_datetime y m dd (hour d) (minute d) (second d) (microsecond d) in
  if (day d <? days_in_month (year d) (month d))%N
  then Some (at_day (year d) (month d) (day d + 1)%N)
  else if (month d <? 12)%N then Some (at_day (year d) (month d + 1)%N 1%N)
  else if (year d <? 9999)%N then Some (at_day (year d + 1)%N 1%N 1%N)
  else None.

(** [d + timedelta(days=n)]: the same time of day [n] days later.  [None]
    is the OverflowError of a result past 9999-12-31. *)
Fixpoint add_days (n : nat) (d : datetime) : option datetime :=
  match n with
  | 0 => Some d
  | S n' =>
      match next_day d with
      | Some d' => add_days n' d'
      | None => None
      end
  end.

(** The class attribute [base_url] of the mixin. *)
Definition base_url : str := "https://www.ci.stevenson.wa.us/meetings".

(** [start_requests], with [datetime.now()] for argument: the requests it
    yields, or [None] when the date arithmetic overflows. *)
Definition start_requests (self : spider) (now : datetime)
  : option (list item) :=
  let start_date := mk_datetime 2018 1 1 0 0 0 0 in
  match add_days (365 * 2) now with
  | None => None
  | Some end_date =>
      let params :=
        [ ("date_filter[value][month]" : str, PInt (Z.of_N (month start_date)));
          ("date_filter[value][day]" : str, PInt (Z.of_N (day start_date)));
          ("date_filter[value][year]" : str, PInt (Z.of_N (year start_date)));
          ("date_filter_1[value][month]" : str, PInt (Z.of_N (month end_date)));
          ("date_filter_1[value][day]" : str, PInt (Z.of_N (day end_date)));
          ("date_filter_1[value][year]" : str, PInt (Z.of_N (year end_date)));
          ("field_microsite_tid" : str, PStr "All");
          ("field_microsite_tid_1" : str, PInt (board_id self)) ] in
      let url := base_url ++ "/?" ++ urlencode params in
      Some [YieldRequest url]
  end.

(** The proleptic Gregorian ordinal of a date, 0001-01-01 being day 1
    ([date.toordinal]). *)
Definition days_before_year (y : N) : N :=
  ((y - 1) * 365 + (y - 1) / 4 - (y - 1) / 100 + (y - 1) / 400)%N.

Definition days_before_month (y m : N) : N :=
  (nth (N.to_nat m) [0; 0; 31; 59; 90; 120; 151; 181; 212; 243; 273; 304; 334] 0
   + if (2 <? m) && is_leap y then 1 else 0)%N.

Definition toordinal (d : datetime) : N :=
  (days_before_year (year d) + days_before_month (year d) (month d) + day d)%N.

(** The ordinal of 9999-12-31. *)
Definition max_ordinal : N := 3652059.

(** The query string [start_requests] sends for a board and an end date. *)
Definition query_for (board : Z) (end_date : datetime) : str :=
  "date_filter%5Bvalue%5D%5Bmonth%5D=1&date_filter%5Bvalue%5D%5Bday%5D=1&date_filter%5Bvalue%5D%5Byear%5D=2018&date_filter_1%5Bvalue%5D%5Bmonth%5D="
    ++ str_of_int (Z.of_N (month end_date))
    ++ "&date_filter_1%5Bvalue%5D%5Bday%5D="
    ++ str_of_int (Z.of_N (day end_date))
    ++ "&date_filter_1%5Bvalue%5D%5Byear%5D="
    ++ str_of_int (Z.of_N (year end_date))
    ++ "&field_microsite_tid=All&field_microsite_tid_1="
    ++ str_of_int board.

(** A page whose second row has no date. *)
Definition undated_page : response :=
  mk_response (url sample_page)
    (el "html" []
        [ el "table" []
             [ sample_row_1;
               el "tr" [("class", "even")]
                  [el "td" [("class", "views-field-title")] [Text "Workshop"]];
               sample_row_3 ];
          sample_pager ]).


(** * Properties *)

(** ** Worked examples *)

Example clean_weekday :
  clean_title (Some (lit "Wednesday, February 5- Budget Workshop"))
  = lit "Budget Workshop".
Proof. vm_compute. reflexivity. Qed.

Example clean_range :
  clean_title (Some (lit "October 19-20, 2018 Council Retreat"))
  = lit "Council Retreat".
Proof. vm_compute. reflexivity. Qed.

Example clean_twice :
  clean_title (Some (lit "May 5- May 5- X")) = lit "May 5- X"
  /\ clean_title (Some (lit "May 5- X")) = lit "X".
Proof. vm_compute. split; reflexivity. Qed.

Example parse_datetime_offset :
  _parse_datetime "2026-01-15T18:00:00-08:00"
  = Returned (Some (mk_datetime 2026 1 15 18 0 0 0)).
Proof. vm_compute. reflexivity. Qed.

Example parse_datetime_zulu :
  _parse_datetime " 2026-01-15T18:00:00.250Z "
  = Returned (Some (mk_datetime 2026 1 15 18 0 0 250000)).
Proof. vm_compute. reflexivity. Qed.

Example parse_datetime_junk :
  _parse_datetime "not-a-date" = Returned None
  /\ _parse_datetime "Tuesday" = Returned None
  /\ _parse_datetime "2026-02-30T18:00:00" = Returned None.
Proof. vm_compute. repeat split; reflexivity. Qed.

(** ** Trimming *)

Lemma suffix_of_refl (s : str) : suffix_of s s.
Proof. exists []. reflexivity. Qed.

Lemma suffix_of_trans (a b c : str) :
  suffix_of a b -> suffix_of b c -> suffix_of a c.
Proof.
  intros [p ->] [q ->]. exists (q ++ p). now rewrite app_assoc.
Qed.

Lemma suffix_of_length (a b : str) : suffix_of a b -> length a <= length b.
Proof. intros [p ->]. rewrite length_app. lia. Qed.

Lemma suffix_is_substring (a b : str) : suffix_of a b -> substring_of a b.
Proof. intros [p ->]. exists p, []. now rewrite app_nil_r. Qed.

Lemma substring_of_refl (s : str) : substring_of s s.
Proof. exists [], []. simpl. now rewrite app_nil_r. Qed.

Lemma substring_of_trans (a b c : str) :
  substring_of a b -> substring_of b c -> substring_of a c.
Proof.
  intros (p & q & ->) (p' & q' & ->).
  exists (p' ++ p), (q ++ q'). now rewrite <- !app_assoc.
Qed.

Lemma substring_of_length (a b : str) :
  substring_of a b -> length a <= length b.
Proof. intros (p & q & ->). rewrite !length_app. lia. Qed.

Lemma lstrip_suffix (s : str) : suffix_of (lstrip s) s.
Proof.
  induction s as [|c s IH]; simpl.
  - apply suffix_of_refl.
  - destruct (isspace c).
    + destruct IH as [p Hp]. exists (c :: p). simpl. now f_equal.
    + apply suffix_of_refl.
Qed.

Lemma rstrip_prefix (s : str) : exists post, s = rstrip s ++ post.
Proof.
  unfold rstrip. destruct (lstrip_suffix (rev s)) as [p Hp].
  exists (rev p). rewrite <- rev_app_distr, <- Hp. now rewrite rev_involutive.
Qed.

Lemma strip_substring (s : str) : substring_of (strip s) s.
Proof.
  unfold strip. destruct (lstrip_suffix s) as [p Hp].
  destruct (rstrip_prefix (lstrip s)) as [q Hq].
  exists p, q. now rewrite <- Hq.
Qed.

Lemma lstrip_clean_head (s : str) : clean_head (lstrip s) = true.
Proof.
  induction s as [|c s IH]; simpl; [reflexivity|].
  destruct (isspace c) eqn:E; [exact IH|]. simpl. now rewrite E.
Qed.

Lemma lstrip_fixed (s : str) : clean_head s = true -> lstrip s = s.
Proof.
  destruct s as [|c s]; simpl; [reflexivity|].
  destruct (isspace c); [discriminate|reflexivity].
Qed.

Lemma clean_head_prefix (s post : str) :
  clean_head (s ++ post) = true -> clean_head s = true.
Proof. destruct s; simpl; auto. Qed.

Lemma strip_trimmed (s : str) : trimmed (strip s).
Proof.
  unfold trimmed, strip. split.
  - destruct (rstrip_prefix (lstrip s)) as [q Hq].
    apply clean_head_prefix with (post := q). rewrite <- Hq.
    apply lstrip_clean_head.
  - unfold rstrip. rewrite rev_involutive. apply lstrip_clean_head.
Qed.

Lemma trimmed_strip (s : str) : trimmed s -> strip s = s.
Proof.
  intros [H1 H2]. unfold strip, rstrip.
  rewrite (lstrip_fixed s H1), (lstrip_fixed (rev s) H2).
  apply rev_involutive.
Qed.

Lemma strip_idempotent (s : str) : strip (strip s) = strip s.
Proof. apply trimmed_strip, strip_trimmed. Qed.

(** ** The matcher only ever removes a prefix *)

Lemma run_length_bound (k : cclass) (hi : option nat) (s : str) :
  run_length k hi s <= length s.
Proof.
  revert hi. induction s as [|c s IH]; intros hi.
  - destruct hi as [[|h]|]; simpl; lia.
  - destruct hi as [[|h]|]; simpl; [lia| |];
      destruct (in_class k c); simpl; try lia.
    + specialize (IH (Some h)). simpl in IH. lia.
    + specialize (IH None). simpl in IH. lia.
Qed.

Lemma give_back_eq (cont : str -> option str) (s : str) (lo n : nat) :
  give_back cont s lo n =
  if (n <? lo)%nat then None
  else match cont (skipn n s) with
       | Some rest => Some rest
       | None => match n with
                 | 0 => None
                 | S n' => give_back cont s lo n'
                 end
       end.
Proof. destruct n; reflexivity. Qed.

Lemma give_back_some (cont : str -> option str) (s : str) (lo n : nat)
      (rest : str) :
  give_back cont s lo n = Some rest ->
  exists j, lo <= j <= n /\ cont (skipn j s) = Some rest.
Proof.
  induction n as [|n IH]; rewrite give_back_eq.
  - destruct (0 <? lo)%nat eqn:E; [discriminate|].
    apply Nat.ltb_ge in E.
    destruct (cont (skipn 0 s)) eqn:C; [|discriminate].
    intros [= <-]. exists 0. split; [lia|exact C].
  - destruct (S n <? lo)%nat eqn:E; [discriminate|].
    apply Nat.ltb_ge in E.
    destruct (cont (skipn (S n) s)) eqn:C.
    + intros [= <-]. exists (S n). split; [lia|exact C].
    + intros H. destruct (IH H) as (j & Hj & Hc). exists j. split; [lia|exact Hc].
Qed.

Lemma rmatch_leaves (r : regex) :
  forall (cont : str -> option str) (n : nat) (s rest : str),
    (forall s' rest', cont s' = Some rest' -> leaves n s' rest') ->
    rmatch r cont s = Some rest ->
    leaves (min_len r + n) s rest.
Proof.
  induction r as [|k|r1 IH1 r2 IH2|r1 IH1 r2 IH2|k lo hi];
    intros cont n s rest Hcont; simpl.
  - intros H. exact (Hcont _ _ H).
  - destruct s as [|c s]; [discriminate|].
    destruct (in_class k c); [|discriminate].
    intros H. destruct (Hcont _ _ H) as (pre & -> & Hn).
    exists (c :: pre). simpl. split; [reflexivity|lia].
  - intros H.
    assert (L : leaves (min_len r1 + (min_len r2 + n)) s rest).
    { apply IH1 with (cont := rmatch r2 cont); [|exact H].
      intros s' rest' H'. now apply IH2 with (cont := cont). }
    destruct L as (pre & -> & Hn). exists pre. split; [reflexivity|lia].
  - destruct (rmatch r1 cont s) eqn:E.
    + intros [= <-].
      destruct (IH1 cont n s l Hcont E) as (pre & -> & Hn).
      exists pre. split; [reflexivity|lia].
    + intros H.
      destruct (IH2 cont n s rest Hcont H) as (pre & -> & Hn).
      exists pre. split; [reflexivity|lia].
  - intros H. apply give_back_some in H. destruct H as (j & Hj & Hc).
    destruct (Hcont _ _ Hc) as (pre & Hpre & Hn).
    pose proof (run_length_bound k hi s) as Hb.
    exists (firstn j s ++ pre). split.
    + rewrite <- app_assoc, <- Hpre. symmetry. apply firstn_skipn.
    + rewrite length_app, length_firstn. lia.
Qed.

Lemma re_match_leaves (r : regex) (s rest : str) :
  re_match r s = Some rest -> leaves (min_len r) s rest.
Proof.
  intros H. unfold re_match in H.
  apply rmatch_leaves with (n := 0) in H.
  - now rewrite Nat.add_0_r in H.
  - intros s' rest' [= <-]. exists []. split; [reflexivity|simpl; lia].
Qed.

Lemma re_sub_suffix (r : regex) (s : str) : suffix_of (re_sub r s) s.
Proof.
  unfold re_sub. destruct (re_match r s) eqn:E.
  - destruct (re_match_leaves _ _ _ E) as (pre & -> & _). now exists pre.
  - apply suffix_of_refl.
Qed.

Lemma fold_re_sub_suffix (ps : list regex) (s : str) :
  suffix_of (fold_left (fun t p => re_sub p t) ps s) s.
Proof.
  revert s. induction ps as [|p ps IH]; intros s; simpl.
  - apply suffix_of_refl.
  - eapply suffix_of_trans; [apply IH|apply re_sub_suffix].
Qed.

(** ** The title cleaner *)

Lemma strip_dates_suffix (t : str) : suffix_of (strip_dates t) t.
Proof. apply fold_re_sub_suffix. Qed.

Lemma clean_title_eq (raw : option str) :
  clean_title raw = strip (strip_dates (first_trim raw)).
Proof. reflexivity. Qed.

Lemma first_trim_fixed (t : str) : trimmed t -> first_trim (Some t) = t.
Proof.
  intros H. unfold first_trim. destruct t as [|c t]; [reflexivity|].
  simpl truthy. cbv iota. now apply trimmed_strip.
Qed.

Lemma first_trim_substring (s : str) : substring_of (first_trim (Some s)) s.
Proof.
  unfold first_trim. destruct (truthy s).
  - apply strip_substring.
  - exists [], s. reflexivity.
Qed.

Lemma fold_re_sub_no_match (ps : list regex) (t : str) :
  (forall p, In p ps -> re_match p t = None) ->
  fold_left (fun t p => re_sub p t) ps t = t.
Proof.
  induction ps as [|p ps IH]; intros H; simpl; [reflexivity|].
  unfold re_sub at 2. rewrite (H p (or_introl eq_refl)).
  apply IH. intros q Hq. apply H. now right.
Qed.

Lemma fold_re_sub_shrinks (ps : list regex) (t : str) :
  Forall (fun p => 1 <= min_len p) ps ->
  (exists p, In p ps /\ re_match p t <> None) ->
  length (fold_left (fun t p => re_sub p t) ps t) < length t.
Proof.
  induction ps as [|p ps IH]; intros Hmin (q & Hq & Hm).
  - destruct Hq.
  - inversion Hmin as [|? ? Hp Hps]; subst. simpl.
    pose proof (fold_re_sub_suffix ps (re_sub p t)) as Hs.
    apply suffix_of_length in Hs.
    unfold re_sub in *. destruct (re_match p t) as [rest|] eqn:E.
    + destruct (re_match_leaves _ _ _ E) as (pre & -> & Hn).
      rewrite length_app. lia.
    + apply IH; [exact Hps|]. exists q. split; [|exact Hm].
      destruct Hq as [<-|Hq]; [congruence|exact Hq].
Qed.

Lemma date_patterns_consume : Forall (fun p => 1 <= min_len p) date_patterns.
Proof. unfold date_patterns. repeat constructor; simpl; lia. Qed.

(** C6: the title cleaner maps a missing title to the empty string, its
    output never has whitespace at either end, and on the two titles the
    specification gives it returns "Budget Workshop" and "Council Retreat". *)
Theorem clean_title_null_trim_examples :
  clean_title None = []
  /\ (forall raw, trimmed (clean_title raw))
  /\ clean_title (Some (lit "Wednesday, February 5- Budget Workshop"))
     = lit "Budget Workshop"
  /\ clean_title (Some (lit "October 19-20, 2018 Council Retreat"))
     = lit "Council Retreat".
Proof.
  split; [reflexivity|]. split.
  - intros raw. rewrite clean_title_eq. apply strip_trimmed.
  - split; vm_compute; reflexivity.
Qed.

(** C10: for every title text, the cleaned title is a run of consecutive
    characters of the input; each of the eight patterns only ever removes
    a prefix of the string it is applied to. *)
Theorem clean_title_is_substring :
  (forall s : str, substring_of (clean_title (Some s)) s)
  /\ (forall p t, In p date_patterns -> suffix_of (re_sub p t) t).
Proof.
  split.
  - intros s. rewrite clean_title_eq.
    eapply substring_of_trans; [apply strip_substring|].
    eapply substring_of_trans; [|apply first_trim_substring].
    apply suffix_is_substring, strip_dates_suffix.
  - intros p t _. apply re_sub_suffix.
Qed.

(** C3, as stated, fails: a title with two stacked date prefixes loses one
    of them on each run of the cleaner. *)
Lemma clean_title_not_idempotent :
  clean_title (Some (clean_title (Some (lit "May 27- May 28- Council Meeting"))))
  <> clean_title (Some (lit "May 27- May 28- Council Meeting")).
Proof. vm_compute. discriminate. Qed.

(** C3, amended: running the cleaner on its own output changes nothing
    exactly when none of the eight patterns matches that output. *)
Theorem clean_title_idempotent_iff (raw : option str) :
  clean_title (Some (clean_title raw)) = clean_title raw
  <-> (forall p, In p date_patterns -> re_match p (clean_title raw) = None).
Proof.
  pose proof (clean_title_eq raw) as Ht.
  assert (Htrim : trimmed (clean_title raw))
    by (rewrite Ht; apply strip_trimmed).
  set (t := clean_title raw) in *.
  rewrite (clean_title_eq (Some t)), (first_trim_fixed t Htrim).
  split.
  - intros Hfix p Hp. destruct (re_match p t) as [rest|] eqn:E; [|reflexivity].
    exfalso.
    assert (Hlt : length (strip_dates t) < length t).
    { apply fold_re_sub_shrinks; [apply date_patterns_consume|].
      exists p. split; [exact Hp|congruence]. }
    pose proof (substring_of_length _ _ (strip_substring (strip_dates t))) as Hle.
    rewrite Hfix in Hle. lia.
  - intros Hnone. unfold strip_dates.
    rewrite (fold_re_sub_no_match _ _ Hnone). now apply trimmed_strip.
Qed.

(** ** The datetime parser *)

Lemma fromisoformat_raises (s : str) (e : exn) :
  fromisoformat s = Raised e -> e = ValueError.
Proof.
  unfold fromisoformat. destruct (parse_isoformat s); [discriminate|].
  now intros [= <-].
Qed.

Lemma parse_datetime_returns (s : str) :
  exists r, _parse_datetime s = Returned r.
Proof.
  unfold _parse_datetime. cbv zeta.
  destruct (contains "T" (strip s)); [|now eexists].
  destruct (fromisoformat _) as [dt|e] eqn:E; simpl; [now eexists|].
  apply fromisoformat_raises in E. subst e. now eexists.
Qed.

(** C4: on every string the datetime parser returns; it returns [None]
    when the string has no "T" and when [fromisoformat] rejects it, and in
    particular on "not-a-date".  No exception reaches the caller. *)
Theorem parse_datetime_never_raises :
  (forall s, exists r, _parse_datetime s = Returned r)
  /\ (forall s, contains "T" (strip s) = false ->
                _parse_datetime s = Returned None)
  /\ (forall s e,
         fromisoformat (replace_char "Z" "+00:00" (strip s)) = Raised e ->
         _parse_datetime s = Returned None)
  /\ _parse_datetime "not-a-date" = Returned None.
Proof.
  repeat split.
  - apply parse_datetime_returns.
  - intros s H. unfold _parse_datetime. cbv zeta. now rewrite H.
  - intros s e H. unfold _parse_datetime. cbv zeta.
    destruct (contains "T" (strip s)); [|reflexivity].
    rewrite H. apply fromisoformat_raises in H. now subst e.
Qed.

Example isoformat_spec_example :
  isoformat (mk_datetime 2026 1 15 18 0 0 0) (Offset (mk_offset true 8 0))
  = lit "2026-01-15T18:00:00-08:00".
Proof. vm_compute. reflexivity. Qed.

Lemma code_digit (v : N) : code (digit v) = (48 + v mod 10)%N.
Proof.
  unfold code, digit. apply N_ascii_embedding.
  assert (H : (v mod 10 < 10)%N) by (apply N.mod_upper_bound; lia).
  set (r := (v mod 10)%N) in *. lia.
Qed.

Lemma digit_val_digit (v : N) : digit_val (digit v) = Some (v mod 10)%N.
Proof.
  unfold digit_val, isdecimal, between. rewrite code_digit.
  assert (H : (v mod 10 < 10)%N) by (apply N.mod_upper_bound; lia).
  set (r := (v mod 10)%N) in *.
  replace (48 <=? 48 + r)%N with true by (symmetry; apply N.leb_le; lia).
  replace (48 + r <=? 57)%N with true by (symmetry; apply N.leb_le; lia).
  cbv iota beta. simpl andb. cbv iota. f_equal. lia.
Qed.

Lemma pow10_S (w : nat) : pow10 (S w) = (10 * pow10 w)%N.
Proof. reflexivity. Qed.

Lemma pow10_pos (w : nat) : (0 < pow10 w)%N.
Proof.
  induction w as [|w IH]; [reflexivity|]. rewrite pow10_S. lia.
Qed.

Lemma read_digits_digits (w : nat) :
  forall (acc v : N) (rest : str),
    (v < pow10 w)%N ->
    read_digits w acc (digits w v ++ rest) = Some (acc * pow10 w + v, rest)%N.
Proof.
  induction w as [|w IH]; intros acc v rest Hv.
  - change (pow10 0) with 1%N in *. cbn [digits read_digits app].
    do 2 f_equal. lia.
  - pose proof (pow10_pos w) as Hp. rewrite pow10_S in *.
    cbn [digits read_digits app]. rewrite digit_val_digit.
    assert (Hq : (v / pow10 w < 10)%N)
      by (apply N.Div0.div_lt_upper_bound; lia).
    rewrite (N.mod_small _ _ Hq).
    rewrite IH by (apply N.mod_upper_bound; lia).
    do 2 f_equal.
    pose proof (N.div_mod v (pow10 w) ltac:(lia)) as Hd.
    set (q := (v / pow10 w)%N) in *. set (r := (v mod pow10 w)%N) in *.
    rewrite Hd. ring.
Qed.

Lemma isdecimal_digit (v : N) : isdecimal (digit v) = true.
Proof.
  pose proof (digit_val_digit v) as H. unfold digit_val in H.
  destruct (isdecimal (digit v)); [reflexivity|discriminate].
Qed.

Lemma digits_decimal (w : nat) (v : N) :
  Forall (fun c => isdecimal c = true) (digits w v).
Proof.
  revert v. induction w as [|w IH]; intros v; cbn [digits]; constructor.
  - apply isdecimal_digit.
  - apply IH.
Qed.

Lemma decimal_not_space (c : ascii) : isdecimal c = true -> isspace c = false.
Proof. destruct c as [[] [] [] [] [] [] [] []]; vm_compute; congruence. Qed.

Lemma decimal_not_zed (c : ascii) :
  isdecimal c = true -> ascii_eqb c "Z" = false.
Proof. destruct c as [[] [] [] [] [] [] [] []]; vm_compute; congruence. Qed.

Lemma digits_iso (w : nat) (v : N) : Forall iso_char (digits w v).
Proof.
  eapply Forall_impl; [|apply digits_decimal].
  intros c H. split; [now apply decimal_not_space|now apply decimal_not_zed].
Qed.

Lemma write_offset_iso (o : utcoffset) : Forall iso_char (write_offset o).
Proof.
  unfold write_offset. constructor.
  - destruct (off_negative o); split; reflexivity.
  - apply Forall_app. split; [apply digits_iso|].
    constructor; [split; reflexivity|apply digits_iso].
Qed.

Lemma write_fraction_iso (us : N) : Forall iso_char (write_fraction us).
Proof.
  unfold write_fraction. destruct (us =? 0)%N; constructor.
  - split; reflexivity.
  - apply digits_iso.
Qed.

Lemma isoformat_numeric_iso (d : datetime) (o : utcoffset) :
  Forall iso_char (isoformat d (Offset o)).
Proof.
  unfold isoformat, write_zone.
  repeat first
    [ apply write_offset_iso | apply write_fraction_iso | apply digits_iso
    | apply Forall_app; split
    | apply Forall_cons; [split; reflexivity|] ].
Qed.

Lemma replace_char_app (old : ascii) (new a b : str) :
  replace_char old new (a ++ b)
  = replace_char old new a ++ replace_char old new b.
Proof. apply flat_map_app. Qed.

Lemma replace_char_absent (new s : str) :
  Forall iso_char s -> replace_char "Z" new s = s.
Proof.
  induction 1 as [|c s [_ Hc] _ IH]; [reflexivity|].
  unfold replace_char in *. cbn [flat_map]. rewrite Hc, IH. reflexivity.
Qed.

Lemma isoformat_split (d : datetime) (z : zone) :
  exists body,
    (forall z', isoformat d z' = body ++ write_zone z') /\ Forall iso_char body.
Proof.
  exists (digits 4 (year d) ++ "-"%char :: digits 2 (month d) ++ "-"%char
            :: digits 2 (day d) ++ "T"%char :: digits 2 (hour d) ++ ":"%char
            :: digits 2 (minute d) ++ ":"%char :: digits 2 (second d)
            ++ write_fraction (microsecond d)).
  split.
  - intros z'. unfold isoformat.
    repeat (rewrite <- app_assoc || rewrite <- app_comm_cons). reflexivity.
  - repeat first
      [ apply write_fraction_iso | apply digits_iso
      | apply Forall_app; split
      | apply Forall_cons; [split; reflexivity|] ].
Qed.

Lemma replace_zed_isoformat (d : datetime) (z : zone) :
  replace_char "Z" "+00:00" (isoformat d z) = isoformat d (Offset (numeric z)).
Proof.
  destruct z as [|o].
  - destruct (isoformat_split d Zulu) as (body & Hb & Hiso).
    rewrite !Hb, replace_char_app, (replace_char_absent _ _ Hiso).
    reflexivity.
  - apply replace_char_absent, isoformat_numeric_iso.
Qed.

Lemma nospace_trimmed (s : str) :
  Forall (fun c => isspace c = false) s -> trimmed s.
Proof.
  intros H. split.
  - destruct H as [|c s Hc _]; simpl; [reflexivity|now rewrite Hc].
  - apply Forall_rev in H.
    destruct H as [|c s' Hc _]; simpl; [reflexivity|now rewrite Hc].
Qed.

Lemma isoformat_trimmed (d : datetime) (z : zone) :
  strip (isoformat d z) = isoformat d z.
Proof.
  apply trimmed_strip, nospace_trimmed.
  destruct (isoformat_split d z) as (body & Hb & Hiso). rewrite Hb.
  apply Forall_app. split.
  - eapply Forall_impl; [|exact Hiso]. now intros c [H _].
  - destruct z as [|o]; simpl.
    + constructor; [reflexivity|constructor].
    + eapply Forall_impl; [|apply write_offset_iso]. now intros c [H _].
Qed.

Lemma contains_here (c : ascii) (s : str) : contains [c] (c :: s) = true.
Proof.
  cbn [contains]. unfold startswith. cbn [strip_prefix].
  unfold ascii_eqb. now rewrite Ascii.eqb_refl.
Qed.

Lemma contains_skip (sub : str) (c : ascii) (s : str) :
  contains sub s = true -> contains sub (c :: s) = true.
Proof. intros H. cbn [contains]. rewrite H. apply orb_true_r. Qed.

Lemma contains_app_r (sub a b : str) :
  contains sub b = true -> contains sub (a ++ b) = true.
Proof.
  intros H. induction a as [|c a IH]; [exact H|].
  now apply contains_skip.
Qed.

Lemma isoformat_has_T (d : datetime) (z : zone) :
  contains "T" (isoformat d z) = true.
Proof.
  unfold isoformat.
  apply contains_app_r, contains_skip, contains_app_r, contains_skip,
        contains_app_r.
  apply (contains_here "T"%char).
Qed.

Lemma expect_cons (c : ascii) (s : str) : expect c (c :: s) = Some s.
Proof. unfold expect, ascii_eqb. now rewrite Ascii.eqb_refl. Qed.

Lemma read_two (v : N) (rest : str) :
  (v < 100)%N -> read_digits 2 0 (digits 2 v ++ rest) = Some (v, rest).
Proof. intros H. now rewrite read_digits_digits. Qed.

Lemma read_four (v : N) (rest : str) :
  (v < 10000)%N -> read_digits 4 0 (digits 4 v ++ rest) = Some (v, rest).
Proof. intros H. now rewrite read_digits_digits. Qed.

Lemma read_six (v : N) (rest : str) :
  (v < 1000000)%N -> read_digits 6 0 (digits 6 v ++ rest) = Some (v, rest).
Proof. intros H. now rewrite read_digits_digits. Qed.

Lemma read_date_write (y m d : N) (rest : str) :
  (y < 10000)%N -> (m < 100)%N -> (d < 100)%N ->
  read_date (digits 4 y ++ "-"%char :: digits 2 m ++ "-"%char
               :: digits 2 d ++ rest)
  = Some (y, m, d, rest).
Proof.
  intros Hy Hm Hd. unfold read_date.
  rewrite (read_four _ _ Hy). cbn [obind]. rewrite expect_cons. cbn [obind].
  rewrite (read_two _ _ Hm). cbn [obind]. rewrite expect_cons. cbn [obind].
  rewrite (read_two _ _ Hd). reflexivity.
Qed.

Lemma read_offset_write (o : utcoffset) :
  valid_offset o = true -> read_offset (write_offset o) = Some (Some o).
Proof.
  intros Hv. pose proof Hv as Hb. unfold valid_offset in Hb.
  apply andb_true_iff in Hb. destruct Hb as [Hh Hm].
  apply N.ltb_lt in Hh, Hm.
  destruct o as [neg h m]. cbn [off_negative off_hours off_minutes] in *.
  unfold write_offset. cbn [off_negative off_hours off_minutes].
  rewrite <- (app_nil_r (digits 2 m)).
  destruct neg; cbn [read_offset ascii_eqb Ascii.eqb Bool.eqb orb];
    cbv iota;
    rewrite read_two by lia; cbn [obind]; rewrite expect_cons; cbn [obind];
    rewrite read_two by lia; cbn [obind]; rewrite Hv; reflexivity.
Qed.

Lemma read_fraction_write (us : N) (o : utcoffset) :
  (us < 1000000)%N ->
  read_fraction (write_fraction us ++ write_offset o)
  = Some (us, write_offset o).
Proof.
  intros H. unfold write_fraction. destruct (us =? 0)%N eqn:E.
  - apply N.eqb_eq in E. subst us. unfold write_offset.
    destruct (off_negative o); reflexivity.
  - rewrite <- app_comm_cons. cbn [read_fraction].
    now rewrite (read_six _ _ H).
Qed.

Lemma read_time_write (h mi sec us : N) (o : utcoffset) :
  (h < 100)%N -> (mi < 100)%N -> (sec < 100)%N -> (us < 1000000)%N ->
  read_time (digits 2 h ++ ":"%char :: digits 2 mi ++ ":"%char
               :: digits 2 sec ++ write_fraction us ++ write_offset o)
  = Some (h, mi, sec, us, write_offset o).
Proof.
  intros Hh Hm Hs Hus. unfold read_time.
  rewrite (read_two _ _ Hh). cbn [obind]. cbv iota beta.
  rewrite (read_two _ _ Hm). cbn [obind]. cbv iota beta.
  rewrite (read_two _ _ Hs). cbn [obind]. cbv iota beta.
  rewrite (read_fraction_write _ _ Hus). reflexivity.
Qed.

Lemma days_in_month_bound (y m : N) : (days_in_month y m <= 31)%N.
Proof.
  unfold days_in_month.
  repeat match goal with |- context [if ?b then _ else _] => destruct b end;
    lia.
Qed.

Lemma valid_datetime_bounds (d : datetime) :
  valid_datetime d = true ->
  (year d < 10000 /\ month d < 100 /\ day d < 100 /\ hour d < 100
   /\ minute d < 100 /\ second d < 100 /\ microsecond d < 1000000)%N.
Proof.
  unfold valid_datetime, between. intros H.
  repeat match goal with
         | H : (_ && _) = true |- _ =>
             apply andb_true_iff in H; destruct H as [? ?]
         | H : (_ <=? _)%N = true |- _ => apply N.leb_le in H
         | H : (_ <? _)%N = true |- _ => apply N.ltb_lt in H
         end.
  pose proof (days_in_month_bound (year d) (month d)). lia.
Qed.

Lemma parse_isoformat_write (d : datetime) (o : utcoffset) :
  valid_datetime d = true -> valid_offset o = true ->
  parse_isoformat (isoformat d (Offset o)) = Some (mk_aware d (Some o)).
Proof.
  intros Hd Ho.
  destruct (valid_datetime_bounds d Hd) as (Hy & Hm & Hday & Hh & Hmi & Hs & Hus).
  unfold parse_isoformat, isoformat, write_zone.
  rewrite read_date_write by assumption. cbn [obind]. cbv iota beta.
  rewrite read_time_write by assumption. cbn [obind]. cbv iota beta.
  rewrite (read_offset_write o Ho). cbn [obind]. cbv zeta.
  destruct d as [y m dd h mi sec us]. cbn [year month day hour minute second microsecond] in *.
  now rewrite Hd.
Qed.

Lemma numeric_valid (z : zone) :
  valid_zone z = true -> valid_offset (numeric z) = true.
Proof. destruct z; [reflexivity|exact (fun H => H)]. Qed.



(** ** Searching without regard to case *)

Lemma ascii_eqb_eq (a b : ascii) : ascii_eqb a b = true <-> a = b.
Proof. apply Ascii.eqb_eq. Qed.

Lemma strip_prefix_some (p s r : str) :
  strip_prefix p s = Some r <-> s = p ++ r.
Proof.
  revert s. induction p as [|x p IH]; intros s; simpl.
  - split; [now intros [= ->]|now intros ->].
  - destruct s as [|y s].
    + split; [discriminate|discriminate].
    + destruct (ascii_eqb x y) eqn:E.
      * apply ascii_eqb_eq in E. subst y. rewrite IH.
        split; [now intros ->|now intros [= ->]].
      * split; [discriminate|]. intros [= -> _].
        unfold ascii_eqb in E. now rewrite Ascii.eqb_refl in E.
Qed.

Lemma startswith_true (p s : str) :
  startswith p s = true <-> exists r, s = p ++ r.
Proof.
  unfold startswith. destruct (strip_prefix p s) as [r|] eqn:E.
  - apply strip_prefix_some in E. split; [now exists r|reflexivity].
  - split; [discriminate|]. intros [r Hr].
    apply strip_prefix_some in Hr. congruence.
Qed.

Lemma contains_true (sub s : str) :
  contains sub s = true <-> substring_of sub s.
Proof.
  unfold substring_of. induction s as [|c s IH]; cbn [contains].
  - rewrite orb_false_r, startswith_true. split.
    + intros [r Hr]. now exists [], r.
    + intros (pre & post & H). destruct pre; [now exists post|discriminate].
  - rewrite orb_true_iff, startswith_true, IH. split.
    + intros [[r Hr]|(pre & post & Hs)].
      * now exists [], r.
      * exists (c :: pre), post. simpl. now rewrite Hs.
    + intros (pre & post & H). destruct pre as [|x pre].
      * left. now exists post.
      * right. injection H as _ H. now exists pre, post.
Qed.

Lemma map_eq_app_inv {A B : Type} (f : A -> B) (l : list A) (u v : list B) :
  map f l = u ++ v ->
  exists a b, l = a ++ b /\ map f a = u /\ map f b = v.
Proof.
  revert l. induction u as [|x u IH]; intros l H.
  - exists [], l. auto.
  - destruct l as [|y l]; [discriminate|]. simpl in H.
    injection H as Hx H. destruct (IH l H) as (a & b & -> & Ha & Hb).
    exists (y :: a), b. simpl. now rewrite Hx, Ha.
Qed.

Lemma contains_lower (w s : str) :
  contains w (lower s) = true <-> mentions w s.
Proof.
  rewrite contains_true. unfold substring_of, mentions, lower. split.
  - intros (pre & post & H).
    apply map_eq_app_inv in H. destruct H as (a & b & -> & _ & Hb).
    apply map_eq_app_inv in Hb. destruct Hb as (m & c & -> & Hm & _).
    now exists a, m, c.
  - intros (pre & mid & post & -> & <-).
    exists (map lower_char pre), (map lower_char post).
    now rewrite !map_app.
Qed.

Lemma not_contains_lower (w s : str) :
  contains w (lower s) = false <-> ~ mentions w s.
Proof.
  rewrite <- contains_lower. destruct (contains w (lower s)); split;
    congruence.
Qed.

(** ** The classification and the status *)

(** C9: the classification is CITY_COUNCIL for board 27, COMMISSION for
    board 28 and NOT_CLASSIFIED for every other board identifier; it is
    always one of the three. *)
Theorem parse_classification_by_board (self : spider) :
  (board_id self = 27%Z -> _parse_classification self = CITY_COUNCIL)
  /\ (board_id self = 28%Z -> _parse_classification self = COMMISSION)
  /\ (board_id self <> 27%Z -> board_id self <> 28%Z ->
      _parse_classification self = NOT_CLASSIFIED)
  /\ In (_parse_classification self) [CITY_COUNCIL; COMMISSION; NOT_CLASSIFIED].
Proof.
  unfold _parse_classification.
  destruct (Z.eqb_spec (board_id self) 27) as [E|E];
    [|destruct (Z.eqb_spec (board_id self) 28) as [E'|E']].
  - rewrite E. repeat split; try easy. now left.
  - rewrite E'. repeat split; try easy. right. now left.
  - repeat split; try easy. right. right. now left.
Qed.

Section Status.

Variable core_get_status : datetime -> meeting -> str -> outcome status_t.

(** C2: the status rules are tried in order.  A mention of "cancelled" in
    the title and notes, in any case, gives CANCELLED whatever the start; if
    there is none, a mention of "rescheduled" with a start strictly before
    now gives PASSED; in every other case the answer is the generic rule's.
    So a text that mentions both is CANCELLED. *)
Theorem get_status_rules (now : datetime) (m : meeting) (text : str) :
  (mentions "cancelled" (combined m text) ->
   _get_status core_get_status now m text = Returned CANCELLED)
  /\ (~ mentions "cancelled" (combined m text) ->
      mentions "rescheduled" (combined m text) ->
      forall s, start m = Some s -> dt_ltb s now = true ->
      _get_status core_get_status now m text = Returned PASSED)
  /\ (~ mentions "cancelled" (combined m text) ->
      (~ mentions "rescheduled" (combined m text)
       \/ start m = None
       \/ exists s, start m = Some s /\ dt_ltb s now = false) ->
      _get_status core_get_status now m text = core_get_status now m text)
  /\ (mentions "cancelled" (combined m text) ->
      mentions "rescheduled" (combined m text) ->
      _get_status core_get_status now m text = Returned CANCELLED).
Proof.
  unfold _get_status, combined. cbv zeta.
  repeat split.
  - intros H. apply contains_lower in H. now rewrite H.
  - intros Hc Hr s Hs Hlt.
    apply not_contains_lower in Hc. apply contains_lower in Hr.
    now rewrite Hc, Hr, Hs, Hlt.
  - intros Hc H. apply not_contains_lower in Hc. rewrite Hc.
    destruct H as [Hr|[Hs|(s & Hs & Hlt)]].
    + apply not_contains_lower in Hr. now rewrite Hr.
    + rewrite Hs. now rewrite andb_false_r.
    + rewrite Hs, Hlt. now rewrite andb_false_r.
  - intros H _. apply contains_lower in H. now rewrite H.
Qed.

End Status.

(** ** Links *)

Lemma refs_by_position_zip (row : node) :
  flat_map ref_of (zip headers (skipn 2 (cells_of row))) = refs_by_position row.
Proof.
  unfold refs_by_position, ref_at, zip.
  assert (Hnth : forall i,
             nth_error (cells_of row) (2 + i)
             = nth_error (skipn 2 (cells_of row)) i)
    by (intros i; symmetry; apply nth_error_skipn).
  cbn [flat_map]. rewrite !Hnth.
  destruct (skipn 2 (cells_of row)) as [|c0 [|c1 [|c2 [|c3 rest]]]];
    cbn [headers combine flat_map nth_error app ref_of];
    rewrite ?app_nil_r; reflexivity.
Qed.





Section Links.

Variable urljoin : response -> str -> outcome str.

(** When the loop returns, its links are the references it found, each
    resolved, in the order it found them. *)
Lemma collect_links_returned (resp : response) (pairs : list (str * node)) :
  forall links,
    collect_links urljoin resp pairs = Returned links ->
    Forall2 (resolves urljoin resp) (flat_map ref_of pairs) links.
Proof.
  induction pairs as [|[header cell] pairs IH]; intros links;
    cbn [collect_links flat_map ref_of].
  - intros [= <-]. constructor.
  - fold (first_href cell). destruct (first_href cell) as [h|]; [|apply IH].
    destruct h as [|c h]; cbn [truthy]; [apply IH|].
    destruct (urljoin resp (c :: h)) as [u|e] eqn:Eu; [|discriminate].
    cbn [bind].
    destruct (collect_links urljoin resp pairs) as [ls|e]; [|discriminate].
    cbn [bind]. intros [= <-]. cbn [app]. constructor; [|now apply IH].
    unfold resolves. cbn [fst snd Link.title Link.href].
    repeat split; [discriminate|exact Eu].
Qed.

Hypothesis urljoin_returns :
  forall resp h, exists u, urljoin resp h = Returned u.




End Links.

(** ** The page parser *)

Lemma row_selector_is_row (up : list node) (n : node) :
  existsb (matches up n) row_selector = is_row n.
Proof.
  unfold row_selector, is_row. cbn [existsb matches forallb].
  destruct (matches_simple n (Tag "tr")),
           (matches_simple n (Class "even")),
           (matches_simple n (Class "odd")); reflexivity.
Qed.

Lemma row_selector_rows (ctx : node) :
  css row_selector ctx = filter is_row (map snd (walk [] ctx)).
Proof.
  unfold css.
  induction (walk [] ctx) as [|[up n] l IH]; [reflexivity|].
  cbn [filter map snd]. rewrite row_selector_is_row.
  destruct (is_row n); cbn [map snd]; now rewrite IH.
Qed.

Section Page.

Variable urljoin : response -> str -> outcome str.
Variable core_get_status : datetime -> meeting -> str -> outcome status_t.
Variable _get_id : meeting -> outcome str.
Variable clock : nat -> datetime.
Variable self : spider.

Local Abbreviation parse_row' := (parse_row urljoin core_get_status _get_id clock self).
Local Abbreviation parse_rows' := (parse_rows urljoin core_get_status _get_id clock self).
Local Abbreviation parse' := (parse urljoin core_get_status _get_id clock self).


(** The pagination step yields nothing, or the one request for the page's
    next link, or raises what the resolution of that link raises. *)
Lemma paginate_cases (resp : response) :
  (paginate urljoin resp = Returned []
   /\ (next_page resp = None \/ next_page resp = Some []))
  \/ (exists h u,
         next_page resp = Some h /\ h <> []
         /\ urljoin resp h = Returned u
         /\ paginate urljoin resp = Returned [YieldRequest u])
  \/ (exists h e,
         next_page resp = Some h /\ h <> []
         /\ urljoin resp h = Raised e
         /\ paginate urljoin resp = Raised e).
Proof.
  unfold paginate. destruct (next_page resp) as [[|c h]|]; cbn [truthy].
  - left. split; [reflexivity|now right].
  - right. destruct (urljoin resp (c :: h)) as [u|e] eqn:Eu; cbn [bind].
    + left. exists (c :: h), u. now repeat split.
    + right. exists (c :: h), e. now repeat split.
  - left. split; [reflexivity|now left].
Qed.

Lemma requests_of_meetings (ms : list meeting) :
  flat_map (fun i => match i with YieldRequest u => [u] | _ => [] end)
           (map YieldMeeting ms) = [].
Proof. induction ms; simpl; auto. Qed.

Lemma meetings_of_meetings (ms : list meeting) :
  flat_map (fun i => match i with YieldMeeting m => [m] | _ => [] end)
           (map YieldMeeting ms) = ms.
Proof. induction ms as [|m ms IH]; simpl; [reflexivity|now rewrite IH]. Qed.

(** The run that ends with the pagination step, after the records [ms]. *)
Lemma finish_run (resp : response) (log : list str) (ms : list meeting) :
  let r := finish urljoin resp log (map YieldMeeting ms) in
  logged r = log
  /\ meetings_of r = ms
  /\ match paginate urljoin resp with
     | Returned tail =>
         raised r = None /\ yielded r = map YieldMeeting ms ++ tail
     | Raised e =>
         raised r = Some e /\ yielded r = map YieldMeeting ms
     end.
Proof.
  cbv zeta. unfold finish, meetings_of.
  destruct (paginate_cases resp)
    as [[-> _]|[(h & u & _ & _ & _ & ->)|(h & e & _ & _ & _ & ->)]];
    cbn [logged yielded raised]; rewrite ?flat_map_app, ?meetings_of_meetings;
    cbn [flat_map app]; rewrite ?app_nil_r; now repeat split.
Qed.

Lemma finish_requests (resp : response) (log : list str) (ms : list meeting) :
  let r := finish urljoin resp log (map YieldMeeting ms) in
  length (requests_of r) <= 1
  /\ (forall u, In u (requests_of r) ->
                exists h, next_page resp = Some h /\ h <> []
                          /\ urljoin resp h = Returned u)
  /\ (forall h, raised r = None -> next_page resp = Some h -> h <> [] ->
                exists u, urljoin resp h = Returned u
                          /\ requests_of r = [u]).
Proof.
  cbv zeta. unfold finish, requests_of.
  destruct (paginate_cases resp)
    as [[-> Hn]|[(h & u & Hh & Hne & Hu & ->)|(h & e & Hh & Hne & Hu & ->)]];
    cbn [logged yielded raised]; rewrite ?flat_map_app, ?requests_of_meetings;
    cbn [flat_map app].
  - repeat split; [simpl; lia|now intros u []|].
    intros h _ Hh Hne. destruct Hn as [Hn|Hn]; congruence.
  - repeat split; [simpl; lia| |].
    + intros u' [<-|[]]. now exists h.
    + intros h' _ Hh' _. exists u. split; [congruence|reflexivity].
  - repeat split; [simpl; lia|now intros u []|discriminate].
Qed.

Lemma parse_rows_yields (resp : response) (rows : list node) :
  forall i, exists ms,
    fst (parse_rows' resp i rows) = map YieldMeeting ms
    /\ length ms <= length rows
    /\ map Returned ms
       = firstn (length ms)
                (map (fun '(k, row) => parse_row' resp k row) (numbered i rows))
    /\ (snd (parse_rows' resp i rows) = None -> length ms = length rows).
Proof.
  induction rows as [|row rows IH]; intros i; cbn [parse_rows].
  - exists []. repeat split. simpl. lia.
  - unfold numbered. cbn [length seq combine map].
    destruct (parse_row' resp i row) as [m|e] eqn:Em.
    + destruct (IH (S i)) as (ms & Hms & Hlen & Hmap & Hall).
      destruct (parse_rows' resp (S i) rows) as [ys e'].
      exists (m :: ms). cbn [fst snd length map firstn] in *.
      repeat split.
      * now rewrite Hms.
      * lia.
      * now rewrite Hmap.
      * intros He. now rewrite (Hall He).
    + exists []. cbn [fst snd length map firstn]. repeat split; [lia|discriminate].
Qed.

(** A run is the records of the first rows, followed by the pagination
    step when the loop went through all of them. *)
Lemma parse_shape (resp : response) :
  let rows := css row_selector (root resp) in
  exists ms,
    length ms <= length rows
    /\ map Returned ms
       = firstn (length ms)
                (map (fun '(k, row) => parse_row' resp k row) (numbered 0 rows))
    /\ ((exists e, parse' resp = mk_run [] (map YieldMeeting ms) (Some e))
        \/ (exists log,
              parse' resp = finish urljoin resp log (map YieldMeeting ms)
              /\ length ms = length rows)).
Proof.
  cbv zeta. unfold parse. cbv zeta.
  destruct (css row_selector (root resp)) as [|row rows] eqn:Erows.
  - exists []. repeat split; [simpl; lia|]. right. now eexists.
  - destruct (parse_rows_yields resp (row :: rows) 0)
      as (ms & Hms & Hlen & Hmap & Hall).
    exists ms. split; [exact Hlen|]. split; [exact Hmap|].
    destruct (parse_rows' resp 0 (row :: rows)) as [ys [e|]];
      cbn [fst snd] in *; subst ys.
    + left. now exists e.
    + right. exists []. split; [reflexivity|]. now apply Hall.
Qed.

(** Whatever the framework's calls do, the records a run yields are those
    of the first rows of the page, in order; they are those of all the rows
    when the run does not raise. *)
Lemma parse_records_in_order (resp : response) :
  let rows := css row_selector (root resp) in
  let built := map (fun '(k, row) => parse_row' resp k row) (numbered 0 rows) in
  exists k,
    k <= length rows
    /\ length (meetings_of (parse' resp)) = k
    /\ map Returned (meetings_of (parse' resp)) = firstn k built
    /\ (raised (parse' resp) = None -> k = length rows).
Proof.
  cbv zeta.
  destruct (parse_shape resp)
    as (ms & Hlen & Hmap & [[e ->]|(log & -> & Hall)]);
    exists (length ms).
  - unfold meetings_of. cbn [yielded raised]. rewrite meetings_of_meetings.
    repeat split; try assumption. discriminate.
  - rewrite (proj1 (proj2 (finish_run resp log ms))).
    repeat split; try assumption. now intros _.
Qed.

(** C8: a page without rows logs one warning, yields no record and goes
    on to the pagination step, whose outcome is the outcome of the run;
    every page yields at most one follow-up request, and its target is the
    framework's resolution of the page's next link. *)
Theorem parse_empty_page_and_pagination :
  (forall resp,
      css row_selector (root resp) = [] ->
      logged (parse' resp) = ["No meetings found at " ++ url resp]
      /\ meetings_of (parse' resp) = []
      /\ match paginate urljoin resp with
         | Returned tail =>
             raised (parse' resp) = None /\ yielded (parse' resp) = tail
         | Raised e =>
             raised (parse' resp) = Some e /\ yielded (parse' resp) = []
         end)
  /\ (forall resp,
         length (requests_of (parse' resp)) <= 1
         /\ (forall u, In u (requests_of (parse' resp)) ->
                       exists h, next_page resp = Some h /\ h <> []
                                 /\ urljoin resp h = Returned u)
         /\ (forall h, raised (parse' resp) = None ->
                       next_page resp = Some h -> h <> [] ->
                       exists u, urljoin resp h = Returned u
                                 /\ requests_of (parse' resp) = [u])).
Proof.
  split.
  - intros resp Hrows. unfold parse. cbv zeta. rewrite Hrows.
    apply (finish_run resp ["No meetings found at " ++ url resp] []).
  - intros resp.
    destruct (parse_shape resp) as (ms & _ & _ & [[e ->]|(log & -> & _)]).
    + unfold requests_of. cbn [yielded raised].
      rewrite requests_of_meetings.
      repeat split; [simpl; lia|now intros u []|discriminate].
    + apply finish_requests.
Qed.

(** What the rest of this section assumes of the framework: its resolution
    of references, its status rule and its id rule return. *)
Hypothesis urljoin_returns :
  forall resp h, exists u, urljoin resp h = Returned u.
Hypothesis core_get_status_returns :
  forall now m text, exists st, core_get_status now m text = Returned st.
Hypothesis get_id_returns : forall m, exists i, _get_id m = Returned i.






End Page.

(** ** The sample page, run *)

Example sample_run_titles :
  map title (meetings_of sample_run)
  = [lit "City Council Meeting"; lit "Meeting Cancelled"].
Proof. vm_compute. reflexivity. Qed.

Example sample_run_starts :
  map start (meetings_of sample_run)
  = [Some (mk_datetime 2024 12 19 18 0 0 0); None].
Proof. vm_compute. reflexivity. Qed.

Example sample_run_statuses :
  map status (meetings_of sample_run) = [Some TENTATIVE; Some CANCELLED].
Proof. vm_compute. reflexivity. Qed.

Example sample_run_links :
  map links (meetings_of sample_run)
  = [ [Link.mk "https://www.ci.stevenson.wa.us/agenda.pdf" "Agenda";
       Link.mk "https://www.ci.stevenson.wa.us/minutes.pdf" "Minutes"];
      [] ].
Proof. vm_compute. reflexivity. Qed.

Example sample_run_requests :
  requests_of sample_run
  = [lit "https://www.ci.stevenson.wa.us/meetings?page=1"]
  /\ raised sample_run = None /\ logged sample_run = [].
Proof. vm_compute. repeat split; reflexivity. Qed.

Example empty_page_run :
  parse sample_urljoin sample_status sample_id sample_clock sample_spider
        empty_page
  = mk_run
      [lit "No meetings found at https://www.ci.stevenson.wa.us/meetings?page=9"]
      [YieldRequest "https://www.ci.stevenson.wa.us/meetings?page=1"]
      None.
Proof. vm_compute. reflexivity. Qed.

(** With a generic rule that raises on a record without a start, the run
    of the sample page ends at its second row, before the pagination step. *)
Example strict_rule_stops_the_page :
  let r := parse sample_urljoin strict_status
                 (fun m => match start m with
                           | Some _ => Returned (title m)
                           | None => Raised AttributeError
                           end)
                 sample_clock sample_spider
                 (mk_response (url sample_page)
                    (el "html" []
                        [ el "table" []
                             [ sample_row_1;
                               el "tr" [("class", "even")]
                                  [el "td" [("class", "views-field-title")]
                                      [Text "Workshop"]];
                               sample_row_1 ];
                          sample_pager ])) in
  length (meetings_of r) = 1 /\ raised r = Some TypeError
  /\ requests_of r = [].
Proof. vm_compute. repeat split; reflexivity. Qed.

Example status_examples :
  (forall now st,
      _get_status sample_status now
        (mk_meeting "Meeting Cancelled" [] CITY_COUNCIL st None false [] None
                    [] [] None None) []
      = Returned CANCELLED)
  /\ _get_status strict_status (mk_datetime 2024 12 18 9 0 0 0)
       (mk_meeting "Rescheduled Meeting" [] CITY_COUNCIL
                   (Some (mk_datetime 2024 12 17 9 0 0 0)) None false [] None
                   [] [] None None) []
     = Returned PASSED.
Proof. split; [intros now st|]; vm_compute; reflexivity. Qed.

Example three_data_cells :
  _parse_links sample_urljoin sample_row_3 sample_page
  = Returned [Link.mk "https://www.ci.stevenson.wa.us/a.pdf" "Agenda";
              Link.mk "https://www.ci.stevenson.wa.us/p.pdf" "Agenda Packet";
              Link.mk "https://www.ci.stevenson.wa.us/m.pdf" "Minutes"].
Proof. vm_compute. reflexivity. Qed.

(** With a resolution that rejects a reference, the extractor raises at the
    first cell that carries one. *)
Example picky_resolution_stops_the_row :
  _parse_links picky_urljoin
     (el "tr" [("class", "odd")]
         [ el "td" [] []; el "td" [] [];
           el "td" [] [el "a" [("href", "/a.pdf")] []];
           el "td" [] [el "a" [("href", "http://[x")] []] ])
     sample_page
  = Raised ValueError.
Proof. vm_compute. reflexivity. Qed.

Example classification_examples :
  map (fun b => _parse_classification (mk_spider [] [] None [] None b))
      [27; 28; 99]%Z
  = [CITY_COUNCIL; COMMISSION; NOT_CLASSIFIED].
Proof. reflexivity. Qed.



(** * Further properties *)

(** ** Padding *)

Lemma lstrip_padding (ws s : str) : blank ws -> lstrip (ws ++ s) = lstrip s.
Proof.
  induction 1 as [|c ws Hc _ IH]; [reflexivity|].
  cbn [app lstrip]. now rewrite Hc.
Qed.

Lemma lstrip_blank (ws : str) : blank ws -> lstrip ws = [].
Proof.
  intros H. rewrite <- (app_nil_r ws). now rewrite lstrip_padding.
Qed.

Lemma blank_rev (ws : str) : blank ws -> blank (rev ws).
Proof. apply Forall_rev. Qed.

Lemma rstrip_padding (s ws : str) : blank ws -> rstrip (s ++ ws) = rstrip s.
Proof.
  intros H. unfold rstrip. rewrite rev_app_distr.
  now rewrite lstrip_padding by now apply blank_rev.
Qed.

Lemma strip_padding_right (s ws : str) : blank ws -> strip (s ++ ws) = strip s.
Proof.
  intros H. unfold strip. induction s as [|c s IH].
  - cbn [app]. now rewrite (lstrip_blank ws H).
  - cbn [app lstrip]. destruct (isspace c); [exact IH|].
    now apply (rstrip_padding (c :: s)).
Qed.

Lemma strip_padding (ws1 s ws2 : str) :
  blank ws1 -> blank ws2 -> strip (ws1 ++ s ++ ws2) = strip s.
Proof.
  intros H1 H2. rewrite <- (strip_padding_right s ws2 H2).
  unfold strip. now rewrite lstrip_padding.
Qed.

Lemma first_trim_strip (t : str) : first_trim (Some t) = strip t.
Proof. destruct t; reflexivity. Qed.

(** ** Titles the cleaner leaves alone *)

(** X1: whitespace around the raw title makes no difference to the cleaned
    title. *)
Theorem clean_title_ignores_padding (ws1 s ws2 : str) :
  blank ws1 -> blank ws2 ->
  clean_title (Some (ws1 ++ s ++ ws2)) = clean_title (Some s).
Proof.
  intros H1 H2. rewrite !clean_title_eq, !first_trim_strip.
  now rewrite strip_padding.
Qed.

Lemma clean_title_ignores_padding_witness :
  clean_title (Some (lit "  " ++ lit "May 27- Council Meeting" ++ lit " "))
  = clean_title (Some (lit "May 27- Council Meeting")).
Proof.
  apply (clean_title_ignores_padding "  " "May 27- Council Meeting" " ");
    repeat constructor.
Defined.

Lemma give_back_none (cont : str -> option str) (s : str) (lo n : nat) :
  (forall j, cont (skipn j s) = None) -> give_back cont s lo n = None.
Proof.
  intros H. induction n as [|n IH]; rewrite give_back_eq, H.
  - now destruct (0 <? lo)%nat.
  - now destruct (S n <? lo)%nat.
Qed.

Lemma give_back_short (cont : str -> option str) (s : str) (lo : nat) :
  1 <= lo -> give_back cont s lo 0 = None.
Proof.
  intros H. rewrite give_back_eq.
  destruct (0 <? lo)%nat eqn:E; [reflexivity|].
  apply Nat.ltb_ge in E. lia.
Qed.

Lemma run_length_stops (k : cclass) (hi : option nat) (s : str) :
  match s with
  | c :: _ => in_class k c = false
  | [] => True
  end ->
  run_length k hi s = 0.
Proof.
  destruct s as [|c s]; intros H.
  - now destruct hi as [[|h]|].
  - destruct hi as [[|h]|]; cbn [run_length]; [reflexivity| |]; now rewrite H.
Qed.

Lemma digit_class_decimal (k : cclass) (c : ascii) :
  digit_class k = true -> in_class k c = true -> isdecimal c = true.
Proof.
  destruct k as [x| | |]; cbn [digit_class in_class]; try discriminate.
  - intros Hx Hc. apply ascii_eqb_eq in Hc. now subst c.
  - now intros _ Hc.
Qed.

Lemma letter_class_letter (k : cclass) (c : ascii) :
  letter_class k = true -> in_class k c = true -> isletter c = true.
Proof.
  destruct k as [x| | |]; cbn [letter_class in_class]; try discriminate.
  - intros Hx Hc. apply ascii_eqb_eq in Hc. now subst c.
  - now intros _ Hc.
Qed.

Lemma digit_free_skipn (j : nat) (s : str) :
  digit_free s -> digit_free (skipn j s).
Proof.
  intros H. revert j. induction H as [|c s Hc Hs IH]; intros [|j];
    cbn [skipn]; try constructor; auto.
Qed.

(** A text without digits matches no expression that needs one, whatever
    follows the expression. *)
Lemma rmatch_digit_free (r : regex) :
  forall (cont : str -> option str) (s : str),
    digit_free s ->
    needs_digit r = true \/ (forall s', digit_free s' -> cont s' = None) ->
    rmatch r cont s = None.
Proof.
  induction r as [|k|r1 IH1 r2 IH2|r1 IH1 r2 IH2|k lo hi];
    intros cont s Hs Hor; cbn [rmatch needs_digit] in *.
  - destruct Hor as [H|H]; [discriminate|now apply H].
  - destruct s as [|c s]; [reflexivity|].
    inversion Hs as [|? ? Hc Hs']; subst.
    destruct (in_class k c) eqn:E; [|reflexivity].
    destruct Hor as [H|H]; [|now apply H].
    rewrite (digit_class_decimal k c H E) in Hc. discriminate.
  - apply IH1; [exact Hs|].
    destruct Hor as [H|H].
    + apply orb_true_iff in H. destruct H as [H|H]; [now left|].
      right. intros s' Hs'. apply IH2; [exact Hs'|now left].
    + destruct (needs_digit r1); [now left|].
      right. intros s' Hs'. apply IH2; [exact Hs'|now right].
  - assert (H1 : rmatch r1 cont s = None).
    { apply IH1; [exact Hs|]. destruct Hor as [H|H]; [|now right].
      apply andb_true_iff in H. now left. }
    rewrite H1. apply IH2; [exact Hs|]. destruct Hor as [H|H]; [|now right].
    apply andb_true_iff in H. now left.
  - destruct Hor as [H|H].
    + apply andb_true_iff in H. destruct H as [Hk Hlo].
      apply Nat.leb_le in Hlo.
      rewrite run_length_stops; [now apply give_back_short|].
      destruct s as [|c s]; [exact I|].
      inversion Hs as [|? ? Hc _]; subst.
      destruct (in_class k c) eqn:E; [|reflexivity].
      rewrite (digit_class_decimal k c Hk E) in Hc. discriminate.
    + apply give_back_none. intros j. apply H. now apply digit_free_skipn.
Qed.

(** A text that does not start with a letter matches no expression that
    opens with one. *)
Lemma rmatch_opens_with_letter (r : regex) :
  forall (cont : str -> option str) (s : str),
    opens_with_letter r = true ->
    starts_with_letter s = false ->
    rmatch r cont s = None.
Proof.
  induction r as [|k|r1 IH1 r2 IH2|r1 IH1 r2 IH2|k lo hi];
    intros cont s Hr Hs; cbn [rmatch opens_with_letter] in *.
  - discriminate.
  - destruct s as [|c s]; [reflexivity|]. cbn [starts_with_letter] in Hs.
    destruct (in_class k c) eqn:E; [|reflexivity].
    rewrite (letter_class_letter k c Hr E) in Hs. discriminate.
  - now apply IH1.
  - apply andb_true_iff in Hr. destruct Hr as [H1 H2].
    now rewrite (IH1 cont s H1 Hs), (IH2 cont s H2 Hs).
  - apply andb_true_iff in Hr. destruct Hr as [Hk Hlo].
    apply Nat.leb_le in Hlo.
    rewrite run_length_stops; [now apply give_back_short|].
    destruct s as [|c s]; [exact I|]. cbn [starts_with_letter] in Hs.
    destruct (in_class k c) eqn:E; [|reflexivity].
    rewrite (letter_class_letter k c Hk E) in Hs. discriminate.
Qed.

Lemma date_patterns_need_digit :
  forall p, In p date_patterns -> needs_digit p = true.
Proof.
  apply Forall_forall. unfold date_patterns. repeat constructor.
Qed.

Lemma date_patterns_open_with_letter :
  forall p, In p date_patterns -> opens_with_letter p = true.
Proof.
  apply Forall_forall. unfold date_patterns. repeat constructor.
Qed.

Lemma strip_dates_fixed (t : str) :
  (forall p, In p date_patterns -> re_match p t = None) -> strip_dates t = t.
Proof. apply fold_re_sub_no_match. Qed.

Lemma digit_free_substring (t s : str) :
  substring_of t s -> digit_free s -> digit_free t.
Proof.
  intros (pre & post & ->) H. unfold digit_free in *.
  apply Forall_app in H. destruct H as [_ H].
  apply Forall_app in H. now destruct H.
Qed.

(** X2: a title without a decimal digit comes out of the cleaner as it went
    in, apart from the whitespace at its ends: every pattern needs a
    digit. *)
Theorem clean_title_keeps_digit_free (s : str) :
  digit_free s -> clean_title (Some s) = strip s.
Proof.
  intros H. rewrite clean_title_eq, first_trim_strip.
  rewrite strip_dates_fixed; [apply strip_idempotent|].
  intros p Hp. unfold re_match. apply rmatch_digit_free.
  - apply (digit_free_substring _ s); [apply strip_substring|exact H].
  - left. now apply date_patterns_need_digit.
Qed.

Lemma clean_title_keeps_digit_free_witness :
  clean_title (Some (lit " Monday, Council Workshop - Budget "))
  = strip (lit " Monday, Council Workshop - Budget ").
Proof.
  apply (clean_title_keeps_digit_free " Monday, Council Workshop - Budget ").
  repeat constructor.
Defined.

(** X3: a title whose trimmed text does not start with an ASCII letter
    comes out of the cleaner as it went in, apart from the whitespace at its
    ends: every pattern opens with a letter. *)
Theorem clean_title_keeps_non_letter_start (s : str) :
  starts_with_letter (strip s) = false -> clean_title (Some s) = strip s.
Proof.
  intros H. rewrite clean_title_eq, first_trim_strip.
  rewrite strip_dates_fixed; [apply strip_idempotent|].
  intros p Hp. unfold re_match. apply rmatch_opens_with_letter.
  - now apply date_patterns_open_with_letter.
  - exact H.
Qed.

Lemma clean_title_keeps_non_letter_start_witness :
  clean_title (Some (lit " 2024 Budget Hearing, May 5- 2018 "))
  = strip (lit " 2024 Budget Hearing, May 5- 2018 ").
Proof.
  apply (clean_title_keeps_non_letter_start
           " 2024 Budget Hearing, May 5- 2018 ").
  vm_compute. reflexivity.
Defined.

(** ** The start of a meeting *)

(** X4: whitespace around the timestamp makes no difference to the
    datetime parser. *)
Theorem parse_datetime_ignores_padding (ws1 s ws2 : str) :
  blank ws1 -> blank ws2 ->
  _parse_datetime (ws1 ++ s ++ ws2) = _parse_datetime s.
Proof.
  intros H1 H2. unfold _parse_datetime. cbv zeta.
  now rewrite strip_padding.
Qed.

Lemma parse_datetime_ignores_padding_witness :
  _parse_datetime (lit " " ++ lit "2026-01-15T18:00:00-08:00" ++ lit "  ")
  = _parse_datetime (lit "2026-01-15T18:00:00-08:00").
Proof.
  apply (parse_datetime_ignores_padding " " "2026-01-15T18:00:00-08:00" "  ");
    repeat constructor.
Defined.




Lemma strip_blank (ws : str) : blank ws -> strip ws = [].
Proof. intros H. unfold strip. now rewrite (lstrip_blank ws H). Qed.

Lemma parse_datetime_blank (ws : str) :
  blank ws -> _parse_datetime ws = Returned None.
Proof.
  intros H. unfold _parse_datetime. cbv zeta.
  now rewrite (strip_blank ws H).
Qed.

(** X6: the start of a row is read without raising, and there is none when
    the row has no dc:date span with a content attribute, or when that
    attribute is empty or blank. *)
Theorem parse_start_absent (row : node) :
  (exists st, _parse_start row = Returned st)
  /\ (get (css_attr date_selector "content" row) = None ->
      _parse_start row = Returned None)
  /\ (forall content,
        get (css_attr date_selector "content" row) = Some content ->
        blank content ->
        _parse_start row = Returned None).
Proof.
  unfold _parse_start. repeat split.
  - destruct (get _) as [c|]; [|now eexists].
    destruct (truthy c); [|now eexists]. apply parse_datetime_returns.
  - now intros ->.
  - intros content -> Hb. destruct (truthy content); [|reflexivity].
    apply parse_datetime_blank. rewrite (strip_blank content Hb). constructor.
Qed.

Lemma isoformat_nonempty (d : datetime) (z : zone) : truthy (isoformat d z) = true.
Proof. reflexivity. Qed.

Lemma truthy_app_mid (a s b : str) : truthy s = true -> truthy (a ++ s ++ b) = true.
Proof. destruct a; [destruct s; [discriminate|reflexivity]|reflexivity]. Qed.

(** X7: when the content attribute of the row's first dc:date span is a
    well-formed ISO 8601 datetime with an offset, with or without whitespace
    around it, the start of the row is that datetime as written. *)
Theorem parse_start_reads_content (row : node) (ws1 ws2 : str)
        (d : datetime) (z : zone) :
  get (css_attr date_selector "content" row)
  = Some (ws1 ++ isoformat d z ++ ws2) ->
  blank ws1 -> blank ws2 ->
  valid_datetime d = true -> valid_zone z = true ->
  _parse_start row = Returned (Some d).
Proof.
  intros Hc H1 H2 Hd Hz. unfold _parse_start. rewrite Hc.
  rewrite (truthy_app_mid ws1 _ ws2 (isoformat_nonempty d z)).
  rewrite strip_padding by assumption.
  unfold _parse_datetime. cbv zeta.
  rewrite !isoformat_trimmed, isoformat_has_T, replace_zed_isoformat.
  unfold fromisoformat.
  rewrite (parse_isoformat_write d (numeric z) Hd (numeric_valid z Hz)).
  reflexivity.
Qed.

Lemma parse_start_reads_content_witness :
  _parse_start sample_row_1 = Returned (Some (mk_datetime 2024 12 19 18 0 0 0)).
Proof.
  apply (parse_start_reads_content sample_row_1 [] []
           (mk_datetime 2024 12 19 18 0 0 0) (Offset (mk_offset true 8 0)));
    try constructor; vm_compute; reflexivity.
Defined.

(** ** More on links *)

Lemma zip_headers_firstn {A : Type} (l : list A) :
  zip headers l = zip headers (firstn 4 l).
Proof. destruct l as [|a [|b [|c [|d l]]]]; reflexivity. Qed.

Lemma pick_In {A : Type} (mask : list bool) (l : list A) (x : A) :
  In x (pick mask l) -> In x l.
Proof.
  revert mask. induction l as [|y l IH]; intros [|keep mask]; cbn [pick];
    try now intros [].
  destruct keep.
  - intros [<-|H]; [now left|right; now apply (IH mask)].
  - intros H. right. now apply (IH mask).
Qed.

Lemma pick_NoDup {A : Type} (mask : list bool) (l : list A) :
  NoDup l -> NoDup (pick mask l).
Proof.
  intros H. revert mask. induction H as [|y l Hy Hl IH]; intros [|keep mask];
    cbn [pick]; try constructor.
  destruct keep; [|apply IH]. constructor; [|apply IH].
  intros Hin. apply Hy. now apply (pick_In mask).
Qed.

Lemma str_eqb_eq (a b : str) : str_eqb a b = true <-> a = b.
Proof.
  revert b. induction a as [|x a IH]; intros [|y b]; cbn [str_eqb];
    try (split; [discriminate|discriminate]); [now split|].
  rewrite andb_true_iff, ascii_eqb_eq, IH.
  split; [now intros [-> ->]|now intros [= -> ->]].
Qed.

Lemma headers_NoDup : NoDup headers.
Proof.
  unfold headers. repeat constructor; cbn [In]; intros H;
    repeat destruct H as [H|H]; try discriminate H; exact H.
Qed.

Lemma ref_at_shape (row : node) (i : nat) :
  ref_at row i = []
  \/ exists header h, nth_error headers i = Some header
                      /\ ref_at row i = [(header, h)].
Proof.
  unfold ref_at. destruct (nth_error headers i) as [header|]; [|now left].
  destruct (nth_error (cells_of row) (2 + i)) as [cell|]; [|now left].
  destruct (first_href cell) as [h|]; [|now left].
  destruct (truthy h); [|now left]. right. now exists header, h.
Qed.

Lemma refs_by_position_headers (row : node) :
  exists mask, map fst (refs_by_position row) = pick mask headers.
Proof.
  unfold refs_by_position. cbn [flat_map]. rewrite app_nil_r, !map_app.
  destruct (ref_at_shape row 0) as [->|(h0 & r0 & E0 & ->)];
    destruct (ref_at_shape row 1) as [->|(h1 & r1 & E1 & ->)];
    destruct (ref_at_shape row 2) as [->|(h2 & r2 & E2 & ->)];
    destruct (ref_at_shape row 3) as [->|(h3 & r3 & E3 & ->)];
    repeat match goal with
           | E : nth_error headers _ = Some _ |- _ =>
               cbn in E; injection E as <-
           end;
    cbn [map fst app].
  - now exists [].
  - now exists [false; false; false; true].
  - now exists [false; false; true; false].
  - now exists [false; false; true; true].
  - now exists [false; true; false; false].
  - now exists [false; true; false; true].
  - now exists [false; true; true; false].
  - now exists [false; true; true; true].
  - now exists [true; false; false; false].
  - now exists [true; false; false; true].
  - now exists [true; false; true; false].
  - now exists [true; false; true; true].
  - now exists [true; true; false; false].
  - now exists [true; true; false; true].
  - now exists [true; true; true; false].
  - now exists [true; true; true; true].
Qed.

Section MoreLinks.

Variable urljoin : response -> str -> outcome str.

Lemma resolved_titles (resp : response) (refs : list (str * str))
      (links : list Link.t) :
  Forall2 (resolves urljoin resp) refs links ->
  map Link.title links = map fst refs.
Proof.
  induction 1 as [|r l refs links [Ht _] _ IH]; [reflexivity|].
  cbn [map]. now rewrite Ht, IH.
Qed.

(** X8: a row with at most two cells has no links, whatever the framework's
    resolution does; and the links of a row depend on its third to sixth
    cells only, so that nothing in a later cell is ever resolved. *)
Theorem parse_links_reads_four_cells :
  (forall row resp,
      length (cells_of row) <= 2 ->
      _parse_links urljoin row resp = Returned [])
  /\ (forall row1 row2 resp,
         firstn 4 (skipn 2 (cells_of row1)) = firstn 4 (skipn 2 (cells_of row2)) ->
         _parse_links urljoin row1 resp = _parse_links urljoin row2 resp).
Proof.
  split.
  - intros row resp H. unfold _parse_links. cbv zeta.
    fold (cells_of row). now rewrite (skipn_all2 (cells_of row) H).
  - intros row1 row2 resp H. unfold _parse_links. cbv zeta.
    fold (cells_of row1). fold (cells_of row2).
    rewrite (zip_headers_firstn (skipn 2 (cells_of row1))).
    rewrite (zip_headers_firstn (skipn 2 (cells_of row2))).
    now rewrite H.
Qed.

(** X9: the titles of the links a row gets are headers, each at most once,
    in the order of the header list. *)
Theorem parse_links_titles (row : node) (resp : response)
        (links : list Link.t) :
  _parse_links urljoin row resp = Returned links ->
  NoDup (map Link.title links)
  /\ exists mask, map Link.title links = pick mask headers.
Proof.
  intros H. unfold _parse_links in H. cbv zeta in H. fold (cells_of row) in H.
  apply collect_links_returned in H. rewrite refs_by_position_zip in H.
  rewrite (resolved_titles _ _ _ H).
  destruct (refs_by_position_headers row) as [mask ->].
  split; [apply pick_NoDup, headers_NoDup|now exists mask].
Qed.

End MoreLinks.

Lemma parse_links_titles_witness :
  NoDup (map Link.title
             [Link.mk "https://www.ci.stevenson.wa.us/agenda.pdf" "Agenda";
              Link.mk "https://www.ci.stevenson.wa.us/minutes.pdf" "Minutes"])
  /\ exists mask,
      map Link.title
          [Link.mk "https://www.ci.stevenson.wa.us/agenda.pdf" "Agenda";
           Link.mk "https://www.ci.stevenson.wa.us/minutes.pdf" "Minutes"]
      = pick mask headers.
Proof.
  apply (parse_links_titles sample_urljoin sample_row_1 sample_page).
  vm_compute. reflexivity.
Defined.

(** ** More on the page parser *)

Lemma firstn_incl {A : Type} (k : nat) (l : list A) (x : A) :
  In x (firstn k l) -> In x l.
Proof.
  intros H. rewrite <- (firstn_skipn k l). apply in_or_app. now left.
Qed.

Lemma numbered_In {A : Type} (from : nat) (l : list A) (k : nat) (x : A) :
  In (k, x) (numbered from l) -> In x l.
Proof. unfold numbered. apply in_combine_r. Qed.

Section MorePage.

Variable urljoin : response -> str -> outcome str.
Variable core_get_status : datetime -> meeting -> str -> outcome status_t.
Variable _get_id : meeting -> outcome str.
Variable clock : nat -> datetime.
Variable self : spider.

Local Abbreviation run_of := (parse urljoin core_get_status _get_id clock self).

Lemma parse_row_well_formed (resp : response) (i : nat) (row : node)
      (m : meeting) :
  parse_row urljoin core_get_status _get_id clock self resp i row = Returned m ->
  well_formed_record self resp m /\ title m = _parse_title row.
Proof.
  unfold parse_row. cbv zeta.
  destruct (_parse_start row) as [st|]; [|discriminate]. cbn [bind].
  destruct (_parse_links urljoin row resp) as [ls|]; [|discriminate].
  cbn [bind].
  destruct (_get_status _ _ _ _) as [s|]; [|discriminate]. cbn [bind].
  destruct (_get_id _) as [ident|]; [|discriminate]. cbn [bind].
  intros [= <-]. unfold well_formed_record. cbn. repeat split; discriminate.
Qed.

(** X10: every record a run yields carries the spider's description,
    classification and location, the URL of the page as source, no end, no
    all-day flag and no time notes, and has its status and its id set;
    its title is the cleaned title of a row of the page. *)
Theorem parse_records_well_formed (resp : response) :
  Forall (fun m =>
            well_formed_record self resp m
            /\ exists row, In row (css row_selector (root resp))
                           /\ title m = _parse_title row)
         (meetings_of (run_of resp)).
Proof.
  apply Forall_forall. intros m Hm.
  destruct (parse_records_in_order urljoin core_get_status _get_id clock self resp)
    as (k & _ & _ & Hmap & _).
  apply (in_map Returned) in Hm. rewrite Hmap in Hm.
  apply firstn_incl in Hm. apply in_map_iff in Hm.
  destruct Hm as ([i row] & Hrow & Hin).
  apply parse_row_well_formed in Hrow. destruct Hrow as [Hwf Ht].
  split; [exact Hwf|]. exists row. split; [|exact Ht].
  now apply numbered_In in Hin.
Qed.

(** X11: a run yields its records first and then at most one request, which
    is its last item; a run that raised yields no request; the warning is
    logged exactly when no row matched. *)
Theorem parse_yield_order (resp : response) :
  exists ms tail,
    yielded (run_of resp) = map YieldMeeting ms ++ tail
    /\ (tail = [] \/ exists u, tail = [YieldRequest u])
    /\ (raised (run_of resp) <> None -> tail = [])
    /\ logged (run_of resp)
       = match css row_selector (root resp) with
         | [] => ["No meetings found at " ++ url resp]
         | _ :: _ => []
         end.
Proof.
  unfold parse. cbv zeta.
  destruct (css row_selector (root resp)) as [|row rows].
  - exists []. unfold finish.
    destruct (paginate_cases urljoin resp)
      as [[-> _]|[(h & u & _ & _ & _ & ->)|(h & e & _ & _ & _ & ->)]];
      cbn [yielded raised logged map app].
    + exists []. repeat split; auto.
    + exists [YieldRequest u]. repeat split; [right; now exists u|].
      now intros H.
    + exists []. repeat split; auto.
  - destruct (parse_rows_yields urljoin core_get_status _get_id clock self
                resp (row :: rows) 0) as (ms & Hms & _).
    destruct (parse_rows urljoin core_get_status _get_id clock self resp 0
                (row :: rows)) as [ys [e|]]; cbn [fst] in Hms; subst ys;
      exists ms.
    + exists []. cbn [yielded raised logged]. rewrite app_nil_r.
      repeat split; auto.
    + unfold finish.
      destruct (paginate_cases urljoin resp)
        as [[-> _]|[(h & u & _ & _ & _ & ->)|(h & e & _ & _ & _ & ->)]];
        cbn [yielded raised logged].
      * exists []. repeat split; auto.
      * exists [YieldRequest u]. repeat split; [right; now exists u|].
        now intros H.
      * exists []. rewrite app_nil_r. repeat split; auto.
Qed.

End MorePage.

(** ** The metaclass *)

Lemma join_contains (sep : str) (parts : list str) (p : str) :
  In p parts -> substring_of p (join sep parts).
Proof.
  induction parts as [|q parts IH]; [now intros []|].
  intros [<-|H]; cbn [join].
  - destruct parts as [|q' parts]; [apply substring_of_refl|].
    exists [], (sep ++ join sep (q' :: parts)). reflexivity.
  - destruct parts as [|q' parts]; [now destruct H|].
    destruct (IH H) as (pre & post & E).
    exists (q ++ sep ++ pre), post. rewrite E. now rewrite <- !app_assoc.
Qed.

Lemma filter_pick {A : Type} (f : A -> bool) (l : list A) :
  filter f l = pick (map f l) l.
Proof.
  induction l as [|x l IH]; [reflexivity|]. cbn [filter map pick].
  now rewrite IH.
Qed.

Module MetaFacts.
Import ColgoStevensonCitySpiderMixinMeta.

Lemma defines_iff {V : Type} (dct : list (str * V)) (var : str) :
  defines dct var = true <-> exists v, In (var, v) dct.
Proof.
  unfold defines. rewrite existsb_exists. split.
  - intros ([k v] & Hin & Hk). cbn [fst] in Hk.
    apply str_eqb_eq in Hk. subst k. now exists v.
  - intros [v Hin]. exists (var, v). split; [exact Hin|].
    now apply str_eqb_eq.
Qed.

(** X12: a class is created exactly when it is named
    ColgoStevensonCitySpiderMixin or its body defines all of agency, name,
    board_name, location and description. *)
Theorem meta_accepts_iff {V : Type} (name : str) (dct : list (str * V)) :
  __init__ name dct = Created
  <-> name = lit "ColgoStevensonCitySpiderMixin"
      \/ forall var, In var required_static_vars -> exists v, In (var, v) dct.
Proof.
  unfold __init__. cbv zeta.
  destruct (str_eqb name "ColgoStevensonCitySpiderMixin") eqn:En; cbn [negb].
  - apply str_eqb_eq in En. split; [now left|reflexivity].
  - assert (Hn : name <> lit "ColgoStevensonCitySpiderMixin").
    { intros H. apply str_eqb_eq in H. congruence. }
    destruct (filter _ required_static_vars) as [|var0 rest] eqn:Ef.
    + split; [|reflexivity]. intros _. right. intros var Hvar.
      apply defines_iff. destruct (defines dct var) eqn:Ed; [reflexivity|].
      assert (Hin : In var (filter (fun var => negb (defines dct var))
                                   required_static_vars))
        by (apply filter_In; split; [exact Hvar|now rewrite Ed]).
      rewrite Ef in Hin. destruct Hin.
    + split; [discriminate|]. intros [H|H]; [contradiction|].
      exfalso.
      assert (Hin : In var0 (filter (fun var => negb (defines dct var))
                                    required_static_vars))
        by (rewrite Ef; now left).
      apply filter_In in Hin. destruct Hin as [Hreq Hd].
      apply H in Hreq. apply defines_iff in Hreq. rewrite Hreq in Hd.
      discriminate.
Qed.

(** X13: when the class is refused, one message names every required
    variable the body lacks, and only those, in the order agency, name,
    board_name, location, description, separated by ", " after the name of
    the class. *)
Theorem meta_message {V : Type} (name : str) (dct : list (str * V))
        (message : str) :
  __init__ name dct = NotImplementedError message ->
  exists missing,
    missing <> []
    /\ message = name ++ " must define the following static variable(s): "
                      ++ join ", " missing ++ "."
    /\ (forall var, In var missing <->
                    In var required_static_vars
                    /\ ~ exists v, In (var, v) dct)
    /\ (exists mask, missing = pick mask required_static_vars)
    /\ (forall var, In var missing -> substring_of var message).
Proof.
  unfold __init__. cbv zeta.
  destruct (negb _); [|discriminate].
  destruct (filter _ required_static_vars) as [|var0 rest] eqn:Ef;
    [discriminate|].
  intros H.
  assert (Hm : name ++ " must define the following static variable(s): "
                    ++ join ", " (var0 :: rest) ++ "." = message)
    by congruence.
  clear H. exists (var0 :: rest).
  split; [discriminate|]. split; [symmetry; exact Hm|].
  rewrite <- Ef. split; [|split].
  - intros var. rewrite filter_In, negb_true_iff.
    rewrite <- defines_iff. destruct (defines dct var); intuition congruence.
  - eexists. apply filter_pick.
  - intros var Hvar. rewrite Ef in Hvar. apply (join_contains ", ") in Hvar.
    destruct Hvar as (pre & post & E). rewrite <- Hm.
    exists (name ++ " must define the following static variable(s): " ++ pre),
           (post ++ "."). rewrite E. now rewrite <- !app_assoc.
Qed.

End MetaFacts.

Lemma meta_message_witness :
  exists missing,
    missing <> []
    /\ lit "StevensonCouncil must define the following static variable(s): board_name, location, description."
       = lit "StevensonCouncil" ++ " must define the following static variable(s): "
             ++ join ", " missing ++ "."
    /\ (forall var, In var missing <->
                    In var ColgoStevensonCitySpiderMixinMeta.required_static_vars
                    /\ ~ exists v, In (var, v) [(lit "agency", tt); (lit "name", tt)])
    /\ (exists mask,
          missing = pick mask ColgoStevensonCitySpiderMixinMeta.required_static_vars)
    /\ (forall var, In var missing ->
                    substring_of var
                      (lit "StevensonCouncil must define the following static variable(s): board_name, location, description.")).
Proof.
  apply (MetaFacts.meta_message "StevensonCouncil"
           [(lit "agency", tt); (lit "name", tt)]).
  vm_compute. reflexivity.
Defined.

(** ** The first request *)

Ltac div_lia := zify; Z.to_euclidean_division_equations; lia.

Lemma valid_datetime_ranges (d : datetime) :
  valid_datetime d = true <->
  (1 <= year d <= 9999 /\ 1 <= month d <= 12
   /\ 1 <= day d <= days_in_month (year d) (month d)
   /\ hour d < 24 /\ minute d < 60 /\ second d < 60
   /\ microsecond d < 1000000)%N.
Proof.
  unfold valid_datetime, between.
  rewrite !andb_true_iff, !N.leb_le, !N.ltb_lt. tauto.
Qed.

Lemma is_leap_spec (y : N) :
  is_leap y = true <->
  (y mod 4 = 0 /\ (y mod 100 <> 0 \/ y mod 400 = 0))%N.
Proof.
  unfold is_leap.
  rewrite andb_true_iff, orb_true_iff, negb_true_iff, !N.eqb_eq, N.eqb_neq.
  tauto.
Qed.

Lemma days_before_next_year (y : N) :
  (1 <= y)%N ->
  days_before_year (y + 1)
  = (days_before_year y + 365 + if is_leap y then 1 else 0)%N.
Proof.
  intros Hy. unfold days_before_year.
  replace (y + 1 - 1)%N with (y - 1 + 1)%N by lia.
  pose proof (is_leap_spec y) as Hl.
  destruct (is_leap y).
  - destruct (proj1 Hl eq_refl) as [H4 H100]. clear Hl.
    destruct H100 as [H100|H400]; div_lia.
  - assert (Hn : ~ (y mod 4 = 0 /\ (y mod 100 <> 0 \/ y mod 400 = 0))%N)
      by (intros H; apply Hl in H; discriminate).
    clear Hl. div_lia.
Qed.

Lemma month_cases (m : N) :
  (1 <= m <= 12)%N ->
  (m = 1 \/ m = 2 \/ m = 3 \/ m = 4 \/ m = 5 \/ m = 6 \/ m = 7 \/ m = 8
   \/ m = 9 \/ m = 10 \/ m = 11 \/ m = 12)%N.
Proof. lia. Qed.

Lemma days_before_next_month (y m : N) :
  (1 <= m < 12)%N ->
  days_before_month y (m + 1)
  = (days_before_month y m + days_in_month y m)%N.
Proof.
  intros Hm. unfold days_before_month, days_in_month.
  assert (H : (1 <= m <= 12)%N) by lia.
  destruct (month_cases m H) as
      [->|[->|[->|[->|[->|[->|[->|[->|[->|[->|[->| ->]]]]]]]]]]];
    try lia; destruct (is_leap y); reflexivity.
Qed.

Lemma days_in_year (y : N) :
  (days_before_month y 12 + 31 = 365 + if is_leap y then 1 else 0)%N.
Proof. unfold days_before_month. destruct (is_leap y); reflexivity. Qed.

Lemma days_in_month_range (y m : N) : (28 <= days_in_month y m <= 31)%N.
Proof.
  unfold days_in_month.
  repeat match goal with |- context [if ?b then _ else _] => destruct b end;
    lia.
Qed.

(** The day after a valid date is a valid date, one ordinal further, at the
    same time of day. *)
Lemma next_day_some (d d' : datetime) :
  valid_datetime d = true -> next_day d = Some d' ->
  valid_datetime d' = true
  /\ toordinal d' = (toordinal d + 1)%N
  /\ (hour d', minute d', second d', microsecond d')
     = (hour d, minute d, second d, microsecond d).
Proof.
  intros Hv. apply valid_datetime_ranges in Hv.
  destruct Hv as (Hy & Hm & Hd & Hh & Hmi & Hs & Hus).
  unfold next_day. cbv zeta.
  destruct (N.ltb_spec (day d) (days_in_month (year d) (month d))) as [Hlt|Hge].
  - intros [= <-]. split; [|split; [|reflexivity]].
    + apply valid_datetime_ranges. cbn. repeat split; lia.
    + unfold toordinal. cbn. lia.
  - destruct (N.ltb_spec (month d) 12) as [Hm12|Hm12].
    + intros [= <-]. split; [|split; [|reflexivity]].
      * apply valid_datetime_ranges. cbn.
        pose proof (days_in_month_range (year d) (month d + 1)).
        repeat split; lia.
      * unfold toordinal. cbn.
        rewrite days_before_next_month by lia. lia.
    + destruct (N.ltb_spec (year d) 9999) as [Hy9|Hy9]; [|discriminate].
      intros [= <-]. split; [|split; [|reflexivity]].
      * apply valid_datetime_ranges. cbn. repeat split; lia.
      * unfold toordinal. cbn.
        assert (Em : month d = 12%N) by lia.
        assert (Ed : day d = 31%N)
          by (rewrite Em in Hd, Hge; unfold days_in_month in Hd, Hge;
              cbn in Hd, Hge; lia).
        rewrite Em, Ed, days_before_next_year by lia.
        pose proof (days_in_year (year d)).
        change (days_before_month (year d + 1) 1) with 0%N. lia.
Qed.

Lemma next_day_none (d : datetime) :
  valid_datetime d = true -> next_day d = None ->
  toordinal d = max_ordinal.
Proof.
  intros Hv. apply valid_datetime_ranges in Hv.
  destruct Hv as (Hy & Hm & Hd & _).
  unfold next_day. cbv zeta.
  destruct (N.ltb_spec (day d) (days_in_month (year d) (month d))) as [Hlt|Hge];
    [discriminate|].
  destruct (N.ltb_spec (month d) 12) as [Hm12|Hm12]; [discriminate|].
  destruct (N.ltb_spec (year d) 9999) as [Hy9|Hy9]; [discriminate|].
  intros _.
  assert (Ey : year d = 9999%N) by lia.
  assert (Em : month d = 12%N) by lia.
  assert (Ed : day d = 31%N)
    by (rewrite Em in Hd, Hge; unfold days_in_month in Hd, Hge;
        cbn in Hd, Hge; lia).
  unfold toordinal. rewrite Ey, Em, Ed. reflexivity.
Qed.

Lemma toordinal_within_year (d : datetime) :
  valid_datetime d = true ->
  (toordinal d <= days_before_year (year d + 1))%N.
Proof.
  intros Hv. apply valid_datetime_ranges in Hv.
  destruct Hv as (Hy & Hm & Hd & _).
  rewrite days_before_next_year by lia. unfold toordinal.
  assert (H : (days_before_month (year d) (month d) + day d
               <= 365 + if is_leap (year d) then 1 else 0)%N).
  { revert Hd. unfold days_before_month, days_in_month.
    destruct (month_cases (month d) Hm) as
        [->|[->|[->|[->|[->|[->|[->|[->|[->|[->|[->| ->]]]]]]]]]]];
      destruct (is_leap (year d));
      repeat match goal with
             | |- context [nth ?n ?l ?x] =>
                 let v := eval vm_compute in (nth n l x) in
                 change (nth n l x) with v
             | |- context [if ?b then ?x else ?y] =>
                 let v := eval vm_compute in b in
                 change (if b then x else y) with (if v then x else y);
                 cbv iota
             end;
      lia. }
  lia.
Qed.

Lemma days_before_year_bound (y bound : N) :
  (y <= bound)%N -> (days_before_year y <= days_before_year bound)%N.
Proof. intros H. unfold days_before_year. div_lia. Qed.

Lemma toordinal_bound (d : datetime) :
  valid_datetime d = true -> (toordinal d <= max_ordinal)%N.
Proof.
  intros Hv. pose proof (toordinal_within_year d Hv) as H.
  apply valid_datetime_ranges in Hv. destruct Hv as (Hy & _).
  pose proof (days_before_year_bound (year d + 1) 10000 ltac:(lia)) as Hb.
  change (days_before_year 10000) with max_ordinal in Hb. lia.
Qed.

(** Adding days to a valid datetime: the result is the valid datetime that
    many ordinals further at the same time of day, and there is none
    exactly when that ordinal is past 9999-12-31. *)
Lemma add_days_spec (n : nat) :
  forall d, valid_datetime d = true ->
    match add_days n d with
    | Some e =>
        valid_datetime e = true
        /\ toordinal e = (toordinal d + N.of_nat n)%N
        /\ (hour e, minute e, second e, microsecond e)
           = (hour d, minute d, second d, microsecond d)
    | None => (max_ordinal < toordinal d + N.of_nat n)%N
    end.
Proof.
  induction n as [|n IH]; intros d Hv; cbn [add_days].
  - repeat split; [exact Hv|lia].
  - destruct (next_day d) as [d'|] eqn:En.
    + destruct (next_day_some d d' Hv En) as (Hv' & Ho & Ht).
      specialize (IH d' Hv'). destruct (add_days n d') as [e|].
      * destruct IH as (He & Hoe & Hte). repeat split; [exact He|lia|congruence].
      * lia.
    + rewrite (next_day_none d Hv En). lia.
Qed.

Lemma string_of_uint_safe (u : Decimal.uint) :
  Forall (fun c => always_safe c = true) (lit (NilEmpty.string_of_uint u)).
Proof.
  induction u; cbn [NilEmpty.string_of_uint lit list_ascii_of_string];
    constructor; try reflexivity; exact IHu.
Qed.

Lemma str_of_int_safe (z : Z) :
  Forall (fun c => always_safe c = true) (str_of_int z).
Proof.
  unfold str_of_int. destruct (Z.to_int z) as [u|u];
    cbn [NilEmpty.string_of_int lit list_ascii_of_string].
  - apply string_of_uint_safe.
  - constructor; [reflexivity|apply string_of_uint_safe].
Qed.

Lemma quote_plus_safe (s : str) :
  Forall (fun c => always_safe c = true) s -> quote_plus s = s.
Proof.
  induction 1 as [|c s Hc _ IH]; [reflexivity|].
  unfold quote_plus in *. cbn [flat_map]. now rewrite Hc, IH.
Qed.

Lemma quote_plus_int (z : Z) : quote_plus (str_of_int z) = str_of_int z.
Proof. apply quote_plus_safe, str_of_int_safe. Qed.

Lemma start_requests_unfold (self : spider) (now : datetime) :
  start_requests self now
  = match add_days 730 now with
    | Some end_date =>
        Some [YieldRequest
                (lit "https://www.ci.stevenson.wa.us/meetings/?"
                     ++ query_for (board_id self) end_date)]
    | None => None
    end.
Proof.
  unfold start_requests. cbv zeta.
  change (365 * 2) with 730.
  destruct (add_days 730 now) as [e|]; [|reflexivity].
  do 3 f_equal. unfold urlencode, query_for.
  cbn [map join str_of_param month day year].
  rewrite !quote_plus_int.
  generalize (str_of_int (Z.of_N (month e))).
  generalize (str_of_int (Z.of_N (day e))).
  generalize (str_of_int (Z.of_N (year e))).
  generalize (str_of_int (board_id self)).
  intros b y d m. vm_compute. reflexivity.
Qed.

(** X14: what [start_requests] yields is one request, to the meetings page
    with the eight query parameters in a fixed order: the start date
    1/1/2018 whatever the clock, the end date in decimal, all microsites,
    and the board identifier in decimal; the brackets of the parameter
    names are percent-encoded and the numbers go unescaped. *)
Theorem start_requests_wire_format (self : spider) (now : datetime)
        (requests : list item) :
  start_requests self now = Some requests ->
  exists end_date,
    add_days 730 now = Some end_date
    /\ requests
       = [YieldRequest
            (lit "https://www.ci.stevenson.wa.us/meetings/?date_filter%5Bvalue%5D%5Bmonth%5D=1&date_filter%5Bvalue%5D%5Bday%5D=1&date_filter%5Bvalue%5D%5Byear%5D=2018&date_filter_1%5Bvalue%5D%5Bmonth%5D="
                 ++ str_of_int (Z.of_N (month end_date))
                 ++ "&date_filter_1%5Bvalue%5D%5Bday%5D="
                 ++ str_of_int (Z.of_N (day end_date))
                 ++ "&date_filter_1%5Bvalue%5D%5Byear%5D="
                 ++ str_of_int (Z.of_N (year end_date))
                 ++ "&field_microsite_tid=All&field_microsite_tid_1="
                 ++ str_of_int (board_id self))].
Proof.
  rewrite start_requests_unfold.
  destruct (add_days 730 now) as [e|]; [|discriminate].
  intros [= <-]. exists e. split; reflexivity.
Qed.

Lemma start_requests_wire_format_witness :
  exists end_date,
    add_days 730 (mk_datetime 2024 12 18 9 30 0 0) = Some end_date
    /\ [YieldRequest
          (lit "https://www.ci.stevenson.wa.us/meetings/?date_filter%5Bvalue%5D%5Bmonth%5D=1&date_filter%5Bvalue%5D%5Bday%5D=1&date_filter%5Bvalue%5D%5Byear%5D=2018&date_filter_1%5Bvalue%5D%5Bmonth%5D=12&date_filter_1%5Bvalue%5D%5Bday%5D=18&date_filter_1%5Bvalue%5D%5Byear%5D=2026&field_microsite_tid=All&field_microsite_tid_1=27")]
       = [YieldRequest
            (lit "https://www.ci.stevenson.wa.us/meetings/?date_filter%5Bvalue%5D%5Bmonth%5D=1&date_filter%5Bvalue%5D%5Bday%5D=1&date_filter%5Bvalue%5D%5Byear%5D=2018&date_filter_1%5Bvalue%5D%5Bmonth%5D="
                 ++ str_of_int (Z.of_N (month end_date))
                 ++ "&date_filter_1%5Bvalue%5D%5Bday%5D="
                 ++ str_of_int (Z.of_N (day end_date))
                 ++ "&date_filter_1%5Bvalue%5D%5Byear%5D="
                 ++ str_of_int (Z.of_N (year end_date))
                 ++ "&field_microsite_tid=All&field_microsite_tid_1="
                 ++ str_of_int (board_id sample_spider))].
Proof.
  apply (start_requests_wire_format sample_spider
           (mk_datetime 2024 12 18 9 30 0 0)).
  vm_compute. reflexivity.
Defined.

(** X15: for a valid clock reading, [start_requests] yields its request
    exactly when the date 730 days after the clock's is no later than
    9999-12-31, which holds up to the year 9997; the end date it sends is
    that date, a valid calendar date 730 ordinals after the clock's. *)
Theorem start_requests_end_date (self : spider) (now : datetime) :
  valid_datetime now = true ->
  ((toordinal now + 730 <= max_ordinal)%N ->
   exists end_date,
     valid_datetime end_date = true
     /\ toordinal end_date = (toordinal now + 730)%N
     /\ start_requests self now
        = Some [YieldRequest
                  (lit "https://www.ci.stevenson.wa.us/meetings/?"
                       ++ query_for (board_id self) end_date)])
  /\ ((max_ordinal < toordinal now + 730)%N -> start_requests self now = None)
  /\ ((year now <= 9997)%N -> (toordinal now + 730 <= max_ordinal)%N).
Proof.
  intros Hv. rewrite start_requests_unfold.
  pose proof (add_days_spec 730 now Hv) as H.
  change (N.of_nat 730) with 730%N in H.
  destruct (add_days 730 now) as [e|].
  - destruct H as (He & Ho & _). pose proof (toordinal_bound e He) as Hb.
    split; [|split].
    + intros _. exists e. now repeat split.
    + intros Hc. exfalso. lia.
    + intros _. lia.
  - split; [|split].
    + intros Hc. exfalso. lia.
    + reflexivity.
    + intros Hy. exfalso.
      pose proof (toordinal_within_year now Hv) as Hw.
      pose proof (days_before_year_bound (year now + 1) 9998 ltac:(lia)) as Hb.
      change (days_before_year 9998) with 3651329%N in Hb.
      unfold max_ordinal in *. lia.
Qed.

Lemma start_requests_end_date_witness :
  exists end_date,
    valid_datetime end_date = true
    /\ toordinal end_date
       = (toordinal (mk_datetime 2023 3 1 9 30 0 0) + 730)%N
    /\ start_requests sample_spider (mk_datetime 2023 3 1 9 30 0 0)
       = Some [YieldRequest
                 (lit "https://www.ci.stevenson.wa.us/meetings/?"
                      ++ query_for (board_id sample_spider) end_date)].
Proof.
  apply (proj1 (start_requests_end_date sample_spider
                  (mk_datetime 2023 3 1 9 30 0 0) eq_refl)).
  vm_compute. discriminate.
Defined.

(** ** More on the status and the title selector *)

Lemma prefix_within (mid post a b : str) (x : ascii) :
  mid ++ post = a ++ x :: b -> ~ In x mid -> exists post', a = mid ++ post'.
Proof.
  revert a. induction mid as [|c mid IH]; intros a H Hx.
  - now exists a.
  - destruct a as [|y a]; cbn [app] in H.
    + injection H as Hc _. exfalso. apply Hx. now left.
    + injection H as -> H. destruct (IH a H) as [post' ->].
      * intros Hin. apply Hx. now right.
      * now exists post'.
Qed.

Lemma run_within (a b pre mid post : str) (x : ascii) :
  pre ++ mid ++ post = a ++ x :: b -> ~ In x mid ->
  (exists pre' post', a = pre' ++ mid ++ post')
  \/ (exists pre' post', b = pre' ++ mid ++ post').
Proof.
  revert pre. induction a as [|y a IH]; intros pre H Hx.
  - destruct pre as [|p pre]; cbn [app] in H.
    + destruct (prefix_within mid post [] b x H Hx) as [post' E].
      left. exists [], post'. exact E.
    + injection H as _ H. right. now exists pre, post.
  - destruct pre as [|p pre]; cbn [app] in H.
    + destruct (prefix_within mid post (y :: a) b x H Hx) as [post' E].
      left. exists [], post'. exact E.
    + injection H as -> H. destruct (IH pre H Hx) as [(p' & q' & ->)|R].
      * left. now exists (y :: p'), q'.
      * now right.
Qed.

Lemma lower_char_space (c : ascii) : lower_char c = " "%char -> c = " "%char.
Proof. destruct c as [[] [] [] [] [] [] [] []]; vm_compute; congruence. Qed.

(** A word without a space is mentioned in two texts joined by a space
    exactly when one of the two mentions it. *)
Lemma mentions_joined (w a b : str) :
  ~ In " "%char w ->
  mentions w (a ++ " " ++ b) <-> mentions w a \/ mentions w b.
Proof.
  intros Hw. unfold mentions. split.
  - intros (pre & mid & post & E & Hl).
    assert (Hx : ~ In " "%char mid).
    { intros Hin. apply Hw. rewrite <- Hl. unfold lower.
      apply in_map_iff. exists " "%char. now split. }
    change (a ++ " " ++ b) with (a ++ " "%char :: b) in E. symmetry in E.
    destruct (run_within a b pre mid post " "%char E Hx)
      as [(p & q & ->)|(p & q & ->)].
    + left. now exists p, mid, q.
    + right. now exists p, mid, q.
  - intros [(pre & mid & post & -> & Hl)|(pre & mid & post & -> & Hl)].
    + exists pre, mid, (post ++ " " ++ b). split; [|exact Hl].
      now rewrite <- !app_assoc.
    + exists (a ++ " " ++ pre), mid, post. split; [|exact Hl].
      now rewrite <- !app_assoc.
Qed.

Lemma cancelled_no_space : ~ In " "%char (lit "cancelled").
Proof. cbn. intuition discriminate. Qed.

Lemma rescheduled_no_space : ~ In " "%char (lit "rescheduled").
Proof. cbn. intuition discriminate. Qed.

Section MoreStatus.

Variable core_get_status : datetime -> meeting -> str -> outcome status_t.

(** X16: the two words are looked for in the title and in the notes
    separately, in any case: a meeting is CANCELLED as soon as its title or
    its notes mention "cancelled", and when neither the title nor the notes
    mention "cancelled" or "rescheduled" the status is the generic rule's.
    A word is never found across the boundary of title and notes. *)
Theorem get_status_searches_each (now : datetime) (m : meeting) (text : str) :
  (mentions "cancelled" (title m) \/ mentions "cancelled" text ->
   _get_status core_get_status now m text = Returned CANCELLED)
  /\ (~ mentions "cancelled" (title m) -> ~ mentions "cancelled" text ->
      ~ mentions "rescheduled" (title m) -> ~ mentions "rescheduled" text ->
      _get_status core_get_status now m text = core_get_status now m text).
Proof.
  unfold _get_status. cbv zeta. split.
  - intros H. apply (mentions_joined _ _ _ cancelled_no_space) in H.
    apply contains_lower in H. now rewrite H.
  - intros Hc1 Hc2 Hr1 Hr2.
    assert (Hc : contains "cancelled" (lower (title m ++ " " ++ text)) = false).
    { apply not_contains_lower.
      rewrite (mentions_joined _ _ _ cancelled_no_space). tauto. }
    assert (Hr : contains "rescheduled" (lower (title m ++ " " ++ text)) = false).
    { apply not_contains_lower.
      rewrite (mentions_joined _ _ _ rescheduled_no_space). tauto. }
    now rewrite Hc, Hr.
Qed.

End MoreStatus.

Lemma title_selector_class (up : list node) (n : node) :
  existsb (matches up n) title_selector
  = matches up n (Just [Class "views-field-title"]).
Proof.
  unfold title_selector. cbn [existsb matches forallb].
  destruct (matches_simple n (Tag "td")),
           (matches_simple n (Class "views-field-title")); reflexivity.
Qed.

Lemma css_text_ext (g1 g2 : list selector) (ctx : node) :
  (forall up n, existsb (matches up n) g1 = existsb (matches up n) g2) ->
  css_text g1 ctx = css_text g2 ctx.
Proof.
  intros H. unfold css_text. apply flat_map_ext. intros [up n].
  destruct n as [|d]; [reflexivity|]. destruct up as [|parent up'];
    [reflexivity|]. now rewrite H.
Qed.

(** X17: the title of a row is the cleaned first text, in document order,
    that sits directly in an element of class views-field-title, whatever
    the tag of that element; a row without such a text has the empty
    title. *)
Theorem parse_title_any_tag (row : node) :
  _parse_title row
  = clean_title (get (css_text [Just [Class "views-field-title"]] row))
  /\ (css_text [Just [Class "views-field-title"]] row = [] ->
      _parse_title row = []).
Proof.
  assert (E : css_text title_selector row
              = css_text [Just [Class "views-field-title"]] row).
  { apply css_text_ext. intros up n. rewrite title_selector_class.
    cbn [existsb]. now rewrite orb_false_r. }
  unfold _parse_title. rewrite E. split; [reflexivity|].
  intros ->. reflexivity.
Qed.

(** ** Where an exception of a run comes from *)

Section Failures.

Variable urljoin : response -> str -> outcome str.
Variable core_get_status : datetime -> meeting -> str -> outcome status_t.
Variable _get_id : meeting -> outcome str.
Variable clock : nat -> datetime.
Variable self : spider.

Local Abbreviation row_of := (parse_row urljoin core_get_status _get_id clock self).
Local Abbreviation rows_of := (parse_rows urljoin core_get_status _get_id clock self).
Local Abbreviation the_run := (parse urljoin core_get_status _get_id clock self).



(** The loop stops at the first row whose record cannot be built, having
    yielded the records of the rows before it. *)
Lemma parse_rows_raised (resp : response) (rows : list node) :
  forall i ys e,
    rows_of resp i rows = (ys, Some e) ->
    exists k row ms,
      nth_error rows k = Some row
      /\ row_of resp (i + k) row = Raised e
      /\ ys = map YieldMeeting ms
      /\ length ms = k.
Proof.
  induction rows as [|row rows IH]; intros i ys e; cbn [parse_rows].
  - discriminate.
  - destruct (row_of resp i row) as [m|e'] eqn:Er.
    + destruct (rows_of resp (S i) rows) as [ys' e'] eqn:El.
      intros [= <- ->].
      destruct (IH (S i) ys' e El) as (k & r & ms & Hn & Hr & -> & Hlen).
      exists (S k), r, (m :: ms). cbn [nth_error map length].
      repeat split; [exact Hn| |now rewrite Hlen].
      now replace (i + S k) with (S i + k) by lia.
    + intros [= <- <-]. exists 0, row, []. cbn [nth_error map length].
      repeat split. now rewrite Nat.add_0_r.
Qed.

Lemma finish_raised (resp : response) (log : list str) (ms : list meeting)
      (e : exn) :
  raised (finish urljoin resp log (map YieldMeeting ms)) = Some e ->
  paginate urljoin resp = Raised e
  /\ yielded (finish urljoin resp log (map YieldMeeting ms))
     = map YieldMeeting ms.
Proof.
  unfold finish. destruct (paginate urljoin resp) as [tail|e'];
    cbn [raised yielded]; [discriminate|].
  now intros [= <-].
Qed.



(** X19: a run that raised either stopped at the first row whose record
    could not be built, after yielding the records of the rows before it and
    nothing else, or went through all the rows and stopped at the
    pagination step; it yields no request in either case. *)
Theorem parse_stops_at_first_failure (resp : response) (e : exn) :
  raised (the_run resp) = Some e ->
  requests_of (the_run resp) = []
  /\ ((exists k row,
          nth_error (css row_selector (root resp)) k = Some row
          /\ row_of resp k row = Raised e
          /\ length (meetings_of (the_run resp)) = k)
      \/ (length (meetings_of (the_run resp))
          = length (css row_selector (root resp))
          /\ paginate urljoin resp = Raised e)).
Proof.
  unfold parse, requests_of, meetings_of. cbv zeta.
  destruct (css row_selector (root resp)) as [|row rows].
  - intros H. apply (finish_raised resp _ []) in H. cbn [map] in H.
    destruct H as [H ->]. split; [reflexivity|]. right. now split.
  - destruct (parse_rows_yields urljoin core_get_status _get_id clock self
                resp (row :: rows) 0) as (ms & Hms & _ & _ & Hall).
    destruct (rows_of resp 0 (row :: rows)) as [ys [e'|]] eqn:El;
      cbn [fst snd] in *; subst ys.
    + cbn [raised yielded]. intros [= ->].
      rewrite requests_of_meetings, meetings_of_meetings.
      split; [reflexivity|]. left.
      destruct (parse_rows_raised resp _ _ _ _ El)
        as (k & r & ms' & Hn & Hr & Hys & Hlen).
      exists k, r. repeat split; [exact Hn|exact Hr|].
      apply (f_equal (flat_map (fun i => match i with
                                         | YieldMeeting m => [m]
                                         | _ => []
                                         end))) in Hys.
      rewrite !meetings_of_meetings in Hys. now subst ms'.
    + intros H. apply finish_raised in H. destruct H as [H ->].
      rewrite requests_of_meetings, meetings_of_meetings.
      split; [reflexivity|]. right. split; [now apply Hall|exact H].
Qed.

End Failures.


Lemma parse_stops_at_first_failure_witness :
  requests_of (parse sample_urljoin strict_status sample_id sample_clock
                     sample_spider undated_page) = []
  /\ ((exists k row,
          nth_error (css row_selector (root undated_page)) k = Some row
          /\ parse_row sample_urljoin strict_status sample_id sample_clock
                       sample_spider undated_page k row = Raised TypeError
          /\ length (meetings_of (parse sample_urljoin strict_status sample_id
                                        sample_clock sample_spider undated_page))
             = k)
      \/ (length (meetings_of (parse sample_urljoin strict_status sample_id
                                     sample_clock sample_spider undated_page))
          = length (css row_selector (root undated_page))
          /\ paginate sample_urljoin undated_page = Raised TypeError)).
Proof.
  apply (parse_stops_at_first_failure
           sample_urljoin strict_status sample_id sample_clock sample_spider
           undated_page TypeError).
  vm_compute. reflexivity.
Defined.
